(** * semver-git: the [describe] and [version_check] tools

    A shallow embedding of the two Go programs of the repository
    ([describe], the describe tool, and [version_check], the version
    classifier) and the properties of their parsing procedures.

    Go strings are byte sequences: they are modelled as [list ascii]
    (an [ascii] is one byte).  Output written with [fmt.Println] and
    [fmt.Printf] is the byte string accumulated on standard output; the
    log lines of [logInfo] / [logDebug] go to standard error, only under
    [-d], and are not part of the model. *)

From Stdlib Require Import Ascii String.
From Stdlib Require Import Bool NArith ZArith Lia Arith List Sorted.
Import ListNotations.

Local Open Scope list_scope.

(** ** Byte strings *)

Definition bytes := list ascii.

(** A Go string literal. *)
Definition B (s : string) : bytes := list_ascii_of_string s.

Definition code (c : ascii) : N := N_of_ascii c.

(** The line feed. *)
Definition newline : bytes := B (String "010" "").

Definition bytes_eqb (a b : bytes) : bool :=
  if list_eq_dec ascii_dec a b then true else false.

(** ** The functions of Go's [strings], [path/filepath] and [sort]
       packages that the two programs call *)

Module GoStrings.

(** [strings.HasPrefix]. *)
Fixpoint HasPrefix (s prefix : bytes) {struct prefix} : bool :=
  match prefix, s with
  | [], _ => true
  | p :: ps, c :: cs => Ascii.eqb c p && HasPrefix cs ps
  | _ :: _, [] => false
  end.

(** [strings.HasSuffix]. *)
Definition HasSuffix (s suffix : bytes) : bool :=
  HasPrefix (rev s) (rev suffix).

(** [strings.TrimPrefix]. *)
Definition TrimPrefix (s prefix : bytes) : bytes :=
  if HasPrefix s prefix then skipn (length prefix) s else s.

(** [strings.TrimSuffix]. *)
Definition TrimSuffix (s suffix : bytes) : bytes :=
  if HasSuffix s suffix then firstn (length s - length suffix) s else s.

(** [strings.Contains]. *)
Fixpoint Contains (s substr : bytes) : bool :=
  match s with
  | [] => HasPrefix [] substr
  | _ :: t => HasPrefix s substr || Contains t substr
  end.

(** Puts one more byte in front of the first piece. *)
Definition push (c : ascii) (pieces : list bytes) : list bytes :=
  match pieces with
  | [] => [[c]]
  | x :: xs => (c :: x) :: xs
  end.

(** The pieces of [s] between the occurrences of a non-empty [sep], taken
    from the left and not overlapping; [skip] counts the bytes of an
    occurrence of [sep] still to be passed over. *)
Fixpoint split_go (sep : bytes) (skip : nat) (s : bytes) : list bytes :=
  match s with
  | [] => [[]]
  | c :: t =>
      match skip with
      | S k => split_go sep k t
      | O =>
          if HasPrefix s sep
          then [] :: split_go sep (length sep - 1) t
          else push c (split_go sep 0 t)
      end
  end.

(** [strings.Split(s, sep)].  With an empty [sep] Go cuts after every
    character; every call in the two programs passes a one-byte [sep]. *)
Definition Split (s sep : bytes) : list bytes :=
  match sep with
  | [] => map (fun c => [c]) s
  | _ :: _ => split_go sep 0 s
  end.

(** As [split_go], producing at most [n] pieces: the last one is the
    unsplit remainder. *)
Fixpoint splitn_go (sep : bytes) (n : nat) (skip : nat) (s : bytes)
  : list bytes :=
  match s with
  | [] => [[]]
  | c :: t =>
      match skip with
      | S k => splitn_go sep n k t
      | O =>
          match n with
          | O | 1%nat => [s]
          | S n' =>
              if HasPrefix s sep
              then [] :: splitn_go sep n' (length sep - 1) t
              else push c (splitn_go sep n 0 t)
          end
      end
  end.

(** [strings.SplitN(s, sep, n)]: [n = 0] gives no piece at all, a
    negative [n] all of them. *)
Definition SplitN (s sep : bytes) (n : Z) : list bytes :=
  if (n =? 0)%Z then []
  else if (n <? 0)%Z then Split s sep
  else
    match sep with
    | [] => map (fun c => [c]) s
    | _ :: _ => splitn_go sep (Z.to_nat n) 0 s
    end.

(** [strings.Join]. *)
Fixpoint Join (elems : list bytes) (sep : bytes) : bytes :=
  match elems with
  | [] => []
  | [x] => x
  | x :: rest => x ++ sep ++ Join rest sep
  end.

(** Replaces the first [n] occurrences ([None]: all of them) of the
    non-empty [old]. *)
Fixpoint replace_go (old new : bytes) (n : option nat) (skip : nat)
  (s : bytes) : bytes :=
  match s with
  | [] => []
  | c :: t =>
      match skip with
      | S k => replace_go old new n k t
      | O =>
          match n with
          | Some O => s
          | _ =>
              if HasPrefix s old
              then new ++ replace_go old new (option_map pred n)
                            (length old - 1) t
              else c :: replace_go old new n 0 t
          end
      end
  end.

(** [strings.Replace(s, old, new, n)], for a non-empty [old] (the only
    use in the programs): a negative [n] replaces every occurrence. *)
Definition Replace (s old new : bytes) (n : Z) : bytes :=
  match old with
  | [] => s
  | _ :: _ =>
      replace_go old new (if (n <? 0)%Z then None else Some (Z.to_nat n)) 0 s
  end.

(** [strings.ReplaceAll]. *)
Definition ReplaceAll (s old new : bytes) : bytes := Replace s old new (-1).

(** The table [asciiSpace] of package [strings]: tab, line feed, vertical
    tab, form feed, carriage return, space. *)
Definition asciiSpace (c : ascii) : bool :=
  let n := code c in
  ((9 <=? n) && (n <=? 13))%N || (n =? 32)%N.

(** The number of bytes of the white-space character ([unicode.IsSpace])
    that starts [s], 0 when there is none.  Besides the six ASCII ones these
    are U+0085 and U+00A0 (two bytes in UTF-8), U+1680, U+2000 to U+200A,
    U+2028, U+2029, U+202F, U+205F and U+3000 (three bytes). *)
Definition space_len (s : bytes) : nat :=
  match s with
  | [] => 0
  | c :: t =>
      if asciiSpace c then 1
      else if (code c =? 194)%N then
        match t with
        | d :: _ => if ((code d =? 133) || (code d =? 160))%N then 2 else 0
        | [] => 0
        end
      else if (code c =? 225)%N then
        match t with
        | d :: e :: _ => if ((code d =? 154) && (code e =? 128))%N then 3 else 0
        | _ => 0
        end
      else if (code c =? 226)%N then
        match t with
        | d :: e :: _ =>
            if (code d =? 128)%N then
              if ((128 <=? code e) && (code e <=? 138))%N
                 || (code e =? 168)%N || (code e =? 169)%N || (code e =? 175)%N
              then 3 else 0
            else if ((code d =? 129) && (code e =? 159))%N then 3 else 0
        | _ => 0
        end
      else if (code c =? 227)%N then
        match t with
        | d :: e :: _ => if ((code d =? 128) && (code e =? 128))%N then 3 else 0
        | _ => 0
        end
      else 0
  end.

Definition flush (cur : bytes) : list bytes :=
  match cur with
  | [] => []
  | _ :: _ => [cur]
  end.

(** The maximal runs of [s] without white space; [cur] is the run being
    read, [skip] the bytes of a white-space character still to pass. *)
Fixpoint fields_go (skip : nat) (cur : bytes) (s : bytes) : list bytes :=
  match s with
  | [] => flush cur
  | c :: t =>
      match skip with
      | S k => fields_go k cur t
      | O =>
          match space_len s with
          | O => fields_go 0 (cur ++ [c]) t
          | S k => flush cur ++ fields_go k [] t
          end
      end
  end.

(** [strings.Fields]. *)
Definition Fields (s : bytes) : list bytes := fields_go 0 [] s.

(** Drops the white space at the start of [s]. *)
Fixpoint trim_left_go (skip : nat) (s : bytes) : bytes :=
  match s with
  | [] => []
  | _ :: t =>
      match skip with
      | S k => trim_left_go k t
      | O =>
          match space_len s with
          | O => s
          | S k => trim_left_go k t
          end
      end
  end.

(** [space_len] for the white-space character that ends a string, read
    on the reversed string [r]. *)
Definition space_len_last (r : bytes) : nat :=
  match r with
  | [] => 0
  | c :: t =>
      if asciiSpace c then 1
      else
        match t with
        | d :: u =>
            if (space_len [d; c] =? 2)%nat then 2
            else
              match u with
              | e :: _ => if (space_len [e; d; c] =? 3)%nat then 3 else 0
              | [] => 0
              end
        | [] => 0
        end
  end.

(** Drops the white space at the end of the string whose reversal is [r]. *)
Fixpoint trim_right_fuel (fuel : nat) (r : bytes) : bytes :=
  match fuel with
  | O => r
  | S f =>
      match space_len_last r with
      | O => r
      | n => trim_right_fuel f (skipn n r)
      end
  end.

(** [strings.TrimSpace]. *)
Definition TrimSpace (s : bytes) : bytes :=
  let l := trim_left_go 0 s in
  rev (trim_right_fuel (length l) (rev l)).

(** [filepath.Base] on a system whose path separator is the slash: the
    last element of the path, after the trailing slashes are removed. *)
Definition is_sep (c : ascii) : bool := Ascii.eqb c "/"%char.

Fixpoint drop_while (f : ascii -> bool) (s : bytes) : bytes :=
  match s with
  | [] => []
  | c :: t => if f c then drop_while f t else s
  end.

Fixpoint take_while (f : ascii -> bool) (s : bytes) : bytes :=
  match s with
  | [] => []
  | c :: t => if f c then c :: take_while f t else []
  end.

Definition Base (path : bytes) : bytes :=
  match path with
  | [] => B "."
  | _ :: _ =>
      let stripped := rev (drop_while is_sep (rev path)) in
      let last := rev (take_while (fun c => negb (is_sep c)) (rev stripped)) in
      match last with
      | [] => B "/"
      | _ :: _ => last
      end
  end.

(** The order of Go strings: byte-wise lexicographic. *)
Fixpoint bytes_leb (a b : bytes) : bool :=
  match a, b with
  | [], _ => true
  | _ :: _, [] => false
  | x :: a', y :: b' =>
      if (code x <? code y)%N then true
      else if (code y <? code x)%N then false
      else bytes_leb a' b'
  end.

Fixpoint insert_sorted (x : bytes) (l : list bytes) : list bytes :=
  match l with
  | [] => [x]
  | y :: l' => if bytes_leb x y then x :: l else y :: insert_sorted x l'
  end.

(** [sort.Strings]: the slice in increasing order. *)
Definition Strings (l : list bytes) : list bytes :=
  fold_right insert_sorted [] l.

(** [a] is not above [b] in the order of Go strings. *)
Definition le_bytes (a b : bytes) : Prop := bytes_leb a b = true.

End GoStrings.

Import GoStrings.

(** ** Regular expressions ([regexp])

    The patterns of the two programs use literal bytes, byte ranges,
    concatenation, alternation and the repetitions [*], [+] and [?]; they
    are written as syntax trees.  A pattern is matched by taking its
    derivative byte after byte.  No pattern of the programs has a class
    that holds a byte above 127, so matching the bytes of a string gives
    the answer Go's matcher gives on its characters. *)

Module Regex.

Inductive re : Type :=
| Void : re
| Eps : re
| Chr : ascii -> re
| Rng : ascii -> ascii -> re
| Cat : re -> re -> re
| Alt : re -> re -> re
| Star : re -> re.

Definition in_range (lo hi c : ascii) : bool :=
  ((code lo <=? code c) && (code c <=? code hi))%N.

Fixpoint nullable (r : re) : bool :=
  match r with
  | Void => false
  | Eps => true
  | Chr _ => false
  | Rng _ _ => false
  | Cat r1 r2 => nullable r1 && nullable r2
  | Alt r1 r2 => nullable r1 || nullable r2
  | Star _ => true
  end.

Fixpoint deriv (c : ascii) (r : re) : re :=
  match r with
  | Void => Void
  | Eps => Void
  | Chr a => if Ascii.eqb c a then Eps else Void
  | Rng lo hi => if in_range lo hi c then Eps else Void
  | Cat r1 r2 =>
      Alt (Cat (deriv c r1) r2) (if nullable r1 then deriv c r2 else Void)
  | Alt r1 r2 => Alt (deriv c r1) (deriv c r2)
  | Star r1 => Cat (deriv c r1) (Star r1)
  end.

(** Does the whole of [s] match [r]? *)
Fixpoint matches (r : re) (s : bytes) : bool :=
  match s with
  | [] => nullable r
  | c :: t => matches (deriv c r) t
  end.

(** The repetitions [r+] and [r?], a literal word, a choice of words. *)
Definition plus (r : re) : re := Cat r (Star r).
Definition opt (r : re) : re := Alt r Eps.
Definition lit (w : string) : re := fold_right (fun c r => Cat (Chr c) r) Eps (B w).

(** The language of a pattern. *)
Inductive lang : re -> bytes -> Prop :=
| LEps : lang Eps []
| LChr c : lang (Chr c) [c]
| LRng lo hi c : in_range lo hi c = true -> lang (Rng lo hi) [c]
| LCat r1 r2 s1 s2 : lang r1 s1 -> lang r2 s2 -> lang (Cat r1 r2) (s1 ++ s2)
| LAltL r1 r2 s : lang r1 s -> lang (Alt r1 r2) s
| LAltR r1 r2 s : lang r2 s -> lang (Alt r1 r2) s
| LStar0 r : lang (Star r) []
| LStarS r s1 s2 : lang r s1 -> lang (Star r) s2 -> lang (Star r) (s1 ++ s2).


(** The bytes that the words of a pattern are made of. *)
Fixpoint alphabet (r : re) (c : ascii) : bool :=
  match r with
  | Void => false
  | Eps => false
  | Chr a => Ascii.eqb c a
  | Rng lo hi => in_range lo hi c
  | Cat r1 r2 => alphabet r1 c || alphabet r2 c
  | Alt r1 r2 => alphabet r1 c || alphabet r2 c
  | Star r1 => alphabet r1 c
  end.


(** The bytes that can end a word of a pattern. *)
Fixpoint lasts (r : re) (c : ascii) : bool :=
  match r with
  | Void => false
  | Eps => false
  | Chr a => Ascii.eqb c a
  | Rng lo hi => in_range lo hi c
  | Cat r1 r2 => lasts r2 c || (nullable r2 && lasts r1 c)
  | Alt r1 r2 => lasts r1 c || lasts r2 c
  | Star r1 => lasts r1 c
  end.

End Regex.

Import Regex.

(** ** Processes

    A run of a program writes to standard output and either returns or
    stops the process with [os.Exit]: a computation takes the output
    written so far and gives the output after it and its outcome.  Once
    the process has exited, nothing that follows is run. *)

Module Process.

Inductive outcome (A : Type) : Type :=
| Done : A -> outcome A
| Exited : Z -> outcome A.

Arguments Done {A} _.
Arguments Exited {A} _.

Definition proc (A : Type) : Type := bytes -> bytes * outcome A.

Definition ret {A} (a : A) : proc A := fun out => (out, Done a).

Definition bind {A C} (p : proc A) (k : A -> proc C) : proc C :=
  fun out =>
    match p out with
    | (out', Done a) => k a out'
    | (out', Exited n) => (out', Exited n)
    end.

(** [os.Exit]. *)
Definition os_Exit {A} (status : Z) : proc A := fun out => (out, Exited status).

(** [fmt.Printf], for the string [s] that its format and arguments give. *)
Definition Printf (s : bytes) : proc unit := fun out => (out ++ s, Done tt).

(** [fmt.Println] of one string. *)
Definition Println (s : bytes) : proc unit := Printf (s ++ newline).

(** [if b { p }]. *)
Definition when (b : bool) (p : proc unit) : proc unit :=
  if b then p else ret tt.

(** A whole run, from an empty standard output: what was written and the
    exit status (0 when [main] returns). *)
Definition exec {A} (p : proc A) : bytes * Z :=
  match p [] with
  | (out, Done _) => (out, 0%Z)
  | (out, Exited n) => (out, n)
  end.

Definition stdout {A} (p : proc A) : bytes := fst (exec p).
Definition status {A} (p : proc A) : Z := snd (exec p).

End Process.

Import Process.

Declare Scope proc_scope.
Delimit Scope proc_scope with proc.
Notation "x <- p ;; k" := (bind p (fun x => k))
  (at level 61, p at next level, right associativity) : proc_scope.
Notation "p ;; k" := (bind p (fun _ => k))
  (at level 61, right associativity) : proc_scope.
Local Open Scope proc_scope.

(** ** Command-line flags ([flag])

    [flag.Parse] reads the arguments of the process from the left, as
    long as they are flags: an argument shorter than two bytes or not
    starting with "-" ends the flags and is the first positional argument,
    as is what follows "--".  A flag is written with one or two "-", and
    with its value after "=" or, unless it is a boolean flag, in the next
    argument.  The flag set of both programs exits with status 2 when an
    argument cannot be read (after a message on standard error). *)

Module GoFlag.

(** [strconv.ParseBool], which reads the value of a boolean flag. *)
Definition ParseBool (s : bytes) : option bool :=
  if existsb (bytes_eqb s)
       [B "1"; B "t"; B "T"; B "TRUE"; B "true"; B "True"] then Some true
  else if existsb (bytes_eqb s)
            [B "0"; B "f"; B "F"; B "FALSE"; B "false"; B "False"]
  then Some false
  else None.

(** A flag defined with [flag.BoolVar] or with [flag.StringVar]: how its
    value is stored in the variables [S] of the program. *)
Inductive flag_def (S : Type) : Type :=
| BoolVar : (bool -> S -> S) -> flag_def S
| StringVar : (bytes -> S -> S) -> flag_def S.

Arguments BoolVar {S} _.
Arguments StringVar {S} _.

(** The end of [flag.Parse]: the variables and the positional arguments,
    an argument that cannot be read, or the help asked for by "-h" or
    "-help" where the program defines no such flag. *)
Inductive parsed (S : Type) : Type :=
| Parsed : S -> list bytes -> parsed S
| Failed : parsed S
| HelpAsked : parsed S.

Arguments Parsed {S} _ _.
Arguments Failed {S}.
Arguments HelpAsked {S}.

Fixpoint lookup {S} (name : bytes) (formal : list (bytes * flag_def S))
  : option (flag_def S) :=
  match formal with
  | [] => None
  | (n, d) :: rest => if bytes_eqb name n then Some d else lookup name rest
  end.

(** The name of a flag and the value written after the first "=" that
    is not the first byte of the name. *)
Definition split_value (name : bytes) : bytes * option bytes :=
  match name with
  | [] => ([], None)
  | c :: t =>
      let not_eq := fun x => negb (Ascii.eqb x "=") in
      match drop_while not_eq t with
      | [] => (name, None)
      | _ :: value => (c :: take_while not_eq t, Some value)
      end
  end.

(** The loop of [Parse] over the calls of [parseOne]. *)
Fixpoint Parse {S} (formal : list (bytes * flag_def S)) (vars : S)
  (args : list bytes) {struct args} : parsed S :=
  match args with
  | [] => Parsed vars []
  | s :: rest =>
      match s with
      | c0 :: c1 :: s2 =>
          if negb (Ascii.eqb c0 "-") then Parsed vars args
          else if Ascii.eqb c1 "-" && bytes_eqb s2 [] then Parsed vars rest
          else
            let name := if Ascii.eqb c1 "-" then s2 else c1 :: s2 in
            match name with
            | [] => Failed
            | n0 :: _ =>
                if Ascii.eqb n0 "-" || Ascii.eqb n0 "=" then Failed
                else
                  let (name, value) := split_value name in
                  match lookup name formal with
                  | None =>
                      if bytes_eqb name (B "help") || bytes_eqb name (B "h")
                      then HelpAsked else Failed
                  | Some (BoolVar set) =>
                      match value with
                      | Some v =>
                          match ParseBool v with
                          | Some b => Parse formal (set b vars) rest
                          | None => Failed
                          end
                      | None => Parse formal (set true vars) rest
                      end
                  | Some (StringVar set) =>
                      match value with
                      | Some v => Parse formal (set v vars) rest
                      | None =>
                          match rest with
                          | v :: rest' => Parse formal (set v vars) rest'
                          | [] => Failed
                          end
                      end
                  end
            end
      | _ => Parsed vars args
      end
  end.

End GoFlag.

Import GoFlag.

(** ** The version classifier: [scripts/version_check/version_check.go] *)

Module VersionCheck.

Record flags : Type := Flags {
  helpFlag : bool;
  debugFlag : bool;
  rulesFlag : bool;
  typeFlag : bool;
  buildTypeFlag : bool;
  noColor : bool;
  versionFlag : bool
}.

Definition VERSION : bytes := B "0.2".

(** The patterns "[0-9]+" and "[a-zA-Z]+". *)
Definition number : re := plus (Rng "0" "9").
Definition word : re := plus (Alt (Rng "a" "z") (Rng "A" "Z")).

(** "v?[0-9]+\.[0-9]+\.[0-9]+", the start of each of the four patterns. *)
Definition triple : re :=
  Cat (opt (Chr "v"))
    (Cat number (Cat (Chr ".") (Cat number (Cat (Chr ".") number)))).

(** The end of the last three patterns: any number of qualifiers, each
    either a dot and a number, or an underscore, a word and any number of
    groups made of a dot and a number. *)
Definition qualifiers : re :=
  Star (Alt (Cat (Chr ".") number)
            (Cat (Chr "_") (Cat word (Star (Cat (Chr ".") number))))).

(** The four patterns.  Each is written between "^" and "$" in the
    source, so that [MatchString] asks for the whole string to match. *)

(** The triple alone. *)
Definition versionRelease : re := triple.

(** The triple, "-" or "~", one of alpha, beta, rc, pre, the qualifiers. *)
Definition versionPrerelease : re :=
  Cat triple
    (Cat (Alt (Chr "-") (Chr "~"))
       (Cat (Alt (lit "alpha") (Alt (lit "beta") (Alt (lit "rc") (lit "pre"))))
          qualifiers)).

(** The triple, a dot, one of fix, next, post, the qualifiers. *)
Definition versionPostrelease : re :=
  Cat triple
    (Cat (Chr ".")
       (Cat (Alt (lit "fix") (Alt (lit "next") (lit "post"))) qualifiers)).

(** The triple, an underscore, a word, the qualifiers. *)
Definition versionIntermediate : re :=
  Cat triple (Cat (Chr "_") (Cat word qualifiers)).

(** [re.MatchString(s)] for a pattern written between "^" and "$". *)
Definition MatchString (r : re) (s : bytes) : bool := matches r s.

Definition printHelp : proc unit :=
  Println (B "version_check check that version is set correct according to project rules") ;;
  Println (B "usage: version_check [-h|--help] [-v|--version] version") ;;
  Println (B "options:") ;;
  Println (B "    -h|--help        print this help and exit") ;;
  Println (B "    -V|--version     print version number") ;;
  Println (B "    -r|--rules       print regexp rules for check versions and exit") ;;
  Println (B "    -d|--debug       debug output") ;;
  Println (B "    -t|--type        output version type: release, prerelease, postrelease, intermediate") ;;
  Println (B "    -b|--build-type  output build type for cmake: Release for release version, Debug for other") ;;
  Println (B "    --no-color       no colored output") ;;
  Println (B "arguments:") ;;
  Println (B "    version          version string to check").

Definition printRules : proc unit :=
  Println (B "version rules in precedence order:") ;;
  Println (B "    release:     ^v?[0-9]+\.[0-9]+\.[0-9]+$") ;;
  Println (B ("    prerelease:  ^v?[0-9]+\.[0-9]+\.[0-9]+(\-|\~)(alpha|beta|rc|pre)(\.[0-9]+|\_[a-zA-Z]+(\.[0-9]+)*" ++ ")*$")%string) ;;
  Println (B ("    postrelease: ^v?[0-9]+\.[0-9]+\.[0-9]+\.(fix|next|post)(\.[0-9]+|\_[a-zA-Z]+(\.[0-9]+)*" ++ ")*$")%string) ;;
  Println (B ("    intermediate:^v?[0-9]+\.[0-9]+\.[0-9]+\_[a-zA-Z]+(\.[0-9]+|\_[a-zA-Z]+(\.[0-9]+)*" ++ ")*$")%string).

Definition checkVersion (f : flags) (versionStr : bytes) : proc unit :=
  when (MatchString versionRelease versionStr)
    (when (typeFlag f) (Println (B "Release")) ;;
     when (buildTypeFlag f) (Println (B "Release")) ;;
     os_Exit 0) ;;
  when (MatchString versionPrerelease versionStr)
    (when (typeFlag f) (Println (B "Pre release")) ;;
     when (buildTypeFlag f) (Println (B "Debug")) ;;
     os_Exit 0) ;;
  when (MatchString versionPostrelease versionStr)
    (when (typeFlag f) (Println (B "Post release")) ;;
     when (buildTypeFlag f) (Println (B "Debug")) ;;
     os_Exit 0) ;;
  when (MatchString versionIntermediate versionStr)
    (when (typeFlag f) (Println (B "Intermediate release")) ;;
     when (buildTypeFlag f) (Println (B "Debug")) ;;
     os_Exit 0) ;;
  os_Exit 1.

(** [main], after [flag.Parse]: [f] holds the flags and [args] is
    [flag.Args()], the arguments left after them. *)
Definition main (f : flags) (args : list bytes) : proc unit :=
  when (helpFlag f) (printHelp ;; os_Exit 0) ;;
  when (versionFlag f) (Println VERSION ;; os_Exit 0) ;;
  when (rulesFlag f) (printRules ;; os_Exit 0) ;;
  when (length args =? 0)%nat (os_Exit 1) ;;
  checkVersion f (nth 0 args []).

(** The four categories, in the order of precedence, with the label and
    the build type printed for each. *)
Inductive category : Type :=
| Release | PreRelease | PostRelease | Intermediate.

Definition precedence : list category :=
  [Release; PreRelease; PostRelease; Intermediate].

Definition pattern (c : category) : re :=
  match c with
  | Release => versionRelease
  | PreRelease => versionPrerelease
  | PostRelease => versionPostrelease
  | Intermediate => versionIntermediate
  end.

Definition label (c : category) : bytes :=
  match c with
  | Release => B "Release"
  | PreRelease => B "Pre release"
  | PostRelease => B "Post release"
  | Intermediate => B "Intermediate release"
  end.

Definition build_type (c : category) : bytes :=
  match c with
  | Release => B "Release"
  | _ => B "Debug"
  end.

(** The first category, in the order of precedence, whose pattern the
    string matches. *)
Definition classify (s : bytes) : option category :=
  find (fun c => MatchString (pattern c) s) precedence.

Definition line (s : bytes) : bytes := s ++ newline.

(** What is printed for a category under the flags [-t] and [-b]. *)
Definition report (f : flags) (c : category) : bytes :=
  (if typeFlag f then line (label c) else [])
  ++ (if buildTypeFlag f then line (build_type c) else []).

(** Reading a version string by hand, to compare with the patterns: the
    text left once an optional "v", a run of digits, a dot, a run of
    digits, a dot and a run of digits have been read off its start. *)
Definition is_digit (c : ascii) : bool := in_range "0" "9" c.

Definition strip_v (s : bytes) : bytes :=
  match s with
  | c :: t => if Ascii.eqb c "v" then t else s
  | [] => []
  end.

Definition strip_dot (s : bytes) : option bytes :=
  match s with
  | c :: t => if Ascii.eqb c "." then Some t else None
  | [] => None
  end.

Definition strip_triple (s : bytes) : option bytes :=
  match strip_dot (drop_while is_digit (strip_v s)) with
  | Some s2 =>
      match strip_dot (drop_while is_digit s2) with
      | Some s3 => Some (drop_while is_digit s3)
      | None => None
      end
  | None => None
  end.

(** The only category that a string can have when the text [rest] follows
    the triple: decided by the first byte of [rest]. *)
Definition kind (rest : bytes) : option category :=
  match rest with
  | [] => Some Release
  | c :: _ =>
      if Ascii.eqb c "-" || Ascii.eqb c "~" then Some PreRelease
      else if Ascii.eqb c "." then Some PostRelease
      else if Ascii.eqb c "_" then Some Intermediate
      else None
  end.

Definition tail_kind (s : bytes) : option category :=
  match strip_triple s with
  | Some rest => kind rest
  | None => None
  end.

Definition no_digit_head (s : bytes) : bool :=
  match s with
  | [] => true
  | c :: _ => negb (is_digit c)
  end.

(** None of the flags that make [main] print and stop is set. *)
Definition flags_off (f : flags) : Prop :=
  helpFlag f = false /\ versionFlag f = false /\ rulesFlag f = false.

(** The categories whose pattern a string matches. *)
Definition matching (s : bytes) : list category :=
  filter (fun c => MatchString (pattern c) s) precedence.


(** A byte that a version string can hold: a digit, a letter, or one of
    ".", "_", "-", "~". *)
Definition version_byte (c : ascii) : bool :=
  is_digit c || in_range "a" "z" c || in_range "A" "Z" c
  || Ascii.eqb c "." || Ascii.eqb c "_" || Ascii.eqb c "-" || Ascii.eqb c "~".


(** The three numbers of the triple, without the optional "v", and what
    each pattern asks for after the triple. *)
Definition numbers : re :=
  Cat number (Cat (Chr ".") (Cat number (Cat (Chr ".") number))).

Definition suffix (c : category) : re :=
  match c with
  | Release => Eps
  | PreRelease =>
      Cat (Alt (Chr "-") (Chr "~"))
        (Cat (Alt (lit "alpha") (Alt (lit "beta") (Alt (lit "rc") (lit "pre"))))
           qualifiers)
  | PostRelease =>
      Cat (Chr ".")
        (Cat (Alt (lit "fix") (Alt (lit "next") (lit "post"))) qualifiers)
  | Intermediate => Cat (Chr "_") (Cat word qualifiers)
  end.


(** A digit or a letter. *)
Definition alnum (c : ascii) : bool :=
  is_digit c || in_range "a" "z" c || in_range "A" "Z" c.


(** The flags that [main] defines, with the variables they set, and the
    values of the variables before [flag.Parse]. *)
Definition set_help (b : bool) (f : flags) : flags :=
  Flags b (debugFlag f) (rulesFlag f) (typeFlag f) (buildTypeFlag f)
    (noColor f) (versionFlag f).
Definition set_debug (b : bool) (f : flags) : flags :=
  Flags (helpFlag f) b (rulesFlag f) (typeFlag f) (buildTypeFlag f)
    (noColor f) (versionFlag f).
Definition set_rules (b : bool) (f : flags) : flags :=
  Flags (helpFlag f) (debugFlag f) b (typeFlag f) (buildTypeFlag f)
    (noColor f) (versionFlag f).
Definition set_type (b : bool) (f : flags) : flags :=
  Flags (helpFlag f) (debugFlag f) (rulesFlag f) b (buildTypeFlag f)
    (noColor f) (versionFlag f).
Definition set_buildType (b : bool) (f : flags) : flags :=
  Flags (helpFlag f) (debugFlag f) (rulesFlag f) (typeFlag f) b
    (noColor f) (versionFlag f).
Definition set_noColor (b : bool) (f : flags) : flags :=
  Flags (helpFlag f) (debugFlag f) (rulesFlag f) (typeFlag f)
    (buildTypeFlag f) b (versionFlag f).
Definition set_version (b : bool) (f : flags) : flags :=
  Flags (helpFlag f) (debugFlag f) (rulesFlag f) (typeFlag f)
    (buildTypeFlag f) (noColor f) b.

Definition flagset : list (bytes * flag_def flags) :=
  [(B "h", BoolVar set_help); (B "help", BoolVar set_help);
   (B "d", BoolVar set_debug); (B "debug", BoolVar set_debug);
   (B "r", BoolVar set_rules); (B "rules", BoolVar set_rules);
   (B "t", BoolVar set_type); (B "type", BoolVar set_type);
   (B "b", BoolVar set_buildType); (B "build-type", BoolVar set_buildType);
   (B "no-color", BoolVar set_noColor);
   (B "V", BoolVar set_version); (B "version", BoolVar set_version)].

Definition defaults : flags := Flags false false false false false false false.

(** [flag.Parse()] on the arguments of the process. *)
Definition parse_line (argv : list bytes) : parsed flags :=
  Parse flagset defaults argv.

(** The whole program on the arguments of the process: what it writes on
    standard output and its exit status. *)
Definition run (argv : list bytes) : bytes * Z :=
  match parse_line argv with
  | Parsed f args => exec (main f args)
  | Failed => ([], 2%Z)
  | HelpAsked => ([], 0%Z)
  end.

End VersionCheck.

(** ** The describe tool: [describe.go] *)

Module Describe.

(** What a run reads from outside: the environment of the process, a
    list of names with their values, and the git subprocess, a function
    of the command line that gives the captured standard output, or
    [None] when [cmd.Output()] returns an error. *)
Record world : Type := World {
  environ : list (bytes * bytes);
  git : list bytes -> option bytes
}.

(** [os.Getenv]: the empty string when the variable is not set. *)
Definition Getenv (w : world) (key : bytes) : bytes :=
  match find (fun kv => bytes_eqb (fst kv) key) (environ w) with
  | Some kv => snd kv
  | None => []
  end.

Record flags : Type := Flags {
  helpFlag : bool;
  debugFlag : bool;
  noColor : bool;
  versionFlag : bool;
  releaseFlag : bool;
  strategy : bytes
}.

Definition VERSION : bytes := B "0.4".

Definition Help : proc unit :=
  Println (B "describe project version and release from git describe") ;;
  Println (B "usage: describe [-h|--help] [-v|--version] [-r|--release] project|version|release|full") ;;
  Println (B "options:") ;;
  Println (B "    -h|--help      print this help and exit") ;;
  Println (B "    -V|--version   print version number") ;;
  Println (B "    -d|--debug     debug output") ;;
  Println (B "    --no-color     no color output") ;;
  Println (B "    -r|--release   use commit number as release number, default is no and release is 1") ;;
  Println (B "    -s|--strategy  versioning strategy type: tag, abbrev, rank; default is tag") ;;
  Println (B "commands:") ;;
  Println (B "    project        print project name") ;;
  Println (B "    module         print module name") ;;
  Println (B "    version        print project version") ;;
  Println (B "    release        print project release") ;;
  Println (B "    full           print full project name-version-release").

Definition git_remote : list bytes := [B "remote"; B "-v"].

(** The loop of [Project] over the pieces of the listing; [continue]
    goes on with the pieces that follow. *)
Fixpoint Project_loop (lines : list bytes) : bytes :=
  match lines with
  | [] => []
  | line :: rest =>
      if Contains line (B "fetch") then
        let parts := Fields line in
        if (length parts <? 2)%nat then Project_loop rest
        else
          let url := nth 0 parts [] in
          if Contains url (B "://") then
            let pathParts := Split url (B "/") in
            if (length pathParts <? 2)%nat then Project_loop rest
            else
              let repoPath :=
                Join (skipn (length pathParts - 2) pathParts) (B "/") in
              ReplaceAll (TrimSuffix repoPath (B ".git")) (B "/") (B "-")
          else
            let sshParts := SplitN url (B ":") 2 in
            if negb (length sshParts =? 2)%nat then Project_loop rest
            else
              let repoPath := nth 1 sshParts [] in
              ReplaceAll (TrimSuffix repoPath (B ".git")) (B "/") (B "-")
      else Project_loop rest
  end.

Definition Project (w : world) : bytes :=
  let projectName := Getenv w (B "PROJECT_NAME") in
  if negb (bytes_eqb projectName []) then projectName
  else
    match git w git_remote with
    | None => []
    | Some output => Project_loop (Split output (B "n"))
    end.

(** The loop of [Module] over the lines of the listing. *)
Fixpoint Module_loop (lines : list bytes) : bytes :=
  match lines with
  | [] => []
  | line :: rest =>
      if Contains line (B "fetch") then
        let parts := Fields line in
        if (length parts <? 2)%nat then Module_loop rest
        else
          let url := nth 1 parts [] in
          let afterColon := SplitN url (B ":") 2 in
          if (length afterColon <? 2)%nat then Module_loop rest
          else
            let path := TrimSuffix (nth 1 afterColon []) (B ".git") in
            Base path
      else Module_loop rest
  end.

Definition Module (w : world) : bytes :=
  let projectName := Getenv w (B "PROJECT_NAME") in
  if negb (bytes_eqb projectName []) then projectName
  else
    match git w git_remote with
    | None => []
    | Some output => Module_loop (Split output newline)
    end.

(** The pattern "-g[a-f0-9]+" that [Release] compiles, followed there by
    "$": it can only match at the end of the text. *)
Definition hash_suffix : re :=
  Cat (Chr "-") (Cat (Chr "g") (plus (Alt (Rng "a" "f") (Rng "0" "9")))).

(** [re.ReplaceAllString(src, repl)] for a pattern that ends in "$" (and
    is not in multi-line mode): a match is a suffix of the text that
    matches as a whole, the leftmost one is taken, and nothing is left
    after it to match again. *)
Fixpoint ReplaceAllString_end (r : re) (src repl : bytes) : bytes :=
  match src with
  | [] => if nullable r then repl else []
  | c :: t =>
      if matches r src then repl else c :: ReplaceAllString_end r t repl
  end.

Definition git_describe (abbrev : string) (rest : list bytes) : list bytes :=
  [B "describe"; B "--match"; B "v[0-9]*"; B abbrev] ++ rest.

(** The command lines of the describe queries of [Release] and of
    [versionAbbrev]. *)
Definition describe_release : list bytes :=
  git_describe "--abbrev=2" [B "--tags"; B "HEAD"].

Definition describe_abbrev : list bytes :=
  git_describe "--abbrev=2" [B "--always"; B "--tags"].

(** [Release], under the value of the global [RELEASE]. *)
Definition Release (RELEASE : Z) (w : world) : bytes :=
  if (RELEASE =? 1)%Z then
    match git w describe_release with
    | None => []
    | Some output =>
        let result := ReplaceAllString_end hash_suffix output [] in
        let parts := Split result (B "-") in
        if (1 <? length parts)%nat then nth (length parts - 2) parts []
        else B "0"
    end
  else B "1".

Definition versionTag (w : world) : bytes :=
  match git w (git_describe "--abbrev=0" [B "--tags"; B "HEAD"]) with
  | None => []
  | Some output =>
      let versionStr := TrimSpace output in
      let versionStr := TrimPrefix versionStr (B "v") in
      Replace versionStr (B "-") (B "~") 1
  end.

(** The loop of [versionAbbrev]: the pieces kept, rewritten, in order. *)
Fixpoint abbrev_loop (lines : list bytes) : list bytes :=
  match lines with
  | [] => []
  | line :: rest =>
      if HasPrefix line (B "v") then
        let line := Replace line (B "-g") (B "") 1 in
        let line := Replace line (B "-") (B "~") 1 in
        line :: abbrev_loop rest
      else abbrev_loop rest
  end.

Definition versionAbbrev (w : world) : bytes :=
  match git w describe_abbrev with
  | None => []
  | Some output =>
      let lines := Split (TrimSpace output) (B "n") in
      let versions := Strings (abbrev_loop lines) in
      if (0 <? length versions)%nat
      then TrimPrefix (nth (length versions - 1) versions []) (B "v")
      else []
  end.

Definition versionRank (w : world) : bytes :=
  match git w (git_describe "--abbrev=0" [B "--always"; B "--tags"]) with
  | None => []
  | Some output =>
      let lines := Split (TrimSpace output) (B "n") in
      let versions :=
        Strings (filter (fun line => HasPrefix line (B "v")) lines) in
      if (0 <? length versions)%nat
      then TrimPrefix (nth (length versions - 1) versions []) (B "v")
      else []
  end.

(** [Version], under the value of the global [VERSIONING]. *)
Definition Version (VERSIONING : bytes) (w : world) : proc bytes :=
  if bytes_eqb VERSIONING (B "tag") then ret (versionTag w)
  else if bytes_eqb VERSIONING (B "abbrev") then ret (versionAbbrev w)
  else if bytes_eqb VERSIONING (B "rank") then ret (versionRank w)
  else os_Exit 1.

Definition no_command : bytes :=
  B "Error: No command provided. Usage: describe module|project|version|release|full".

(** [main], after [flag.Parse]: [f] holds the flags and [args] is
    [flag.Args()].  The globals [RELEASE] (0 at the start) and
    [VERSIONING] are passed to the functions that read them. *)
Definition main (f : flags) (args : list bytes) (w : world) : proc unit :=
  when (helpFlag f) (Help ;; os_Exit 0) ;;
  when (versionFlag f) (Println VERSION ;; os_Exit 0) ;;
  let RELEASE := if releaseFlag f then 1%Z else 0%Z in
  when (length args =? 0)%nat (Println no_command ;; os_Exit 1) ;;
  let command := nth 0 args [] in
  VERSIONING <-
    (if bytes_eqb (strategy f) (B "tag") then ret (B "tag")
     else if bytes_eqb (strategy f) (B "abbrev") then ret (B "abbrev")
     else if bytes_eqb (strategy f) (B "rank") then ret (B "rank")
     else os_Exit 1) ;;
  if bytes_eqb command (B "project") then Println (Project w)
  else if bytes_eqb command (B "module") then Println (Module w)
  else if bytes_eqb command (B "version") then
    v <- Version VERSIONING w ;; Println v
  else if bytes_eqb command (B "release") then Println (Release RELEASE w)
  else if bytes_eqb command (B "full") then
    v <- Version VERSIONING w ;;
    Printf (Project w ++ B "-" ++ v ++ B "-" ++ Release RELEASE w)
  else os_Exit 1.

(** The shape of the listing printed by [git remote -v]: one line per
    remote and direction, made of the name of the remote, a tab, the URL,
    a space and the direction in brackets, each line ended by a line
    feed. *)
Definition tab : bytes := B (String "009" "").

Definition fetch_line (name url : bytes) : bytes :=
  name ++ tab ++ url ++ B " (fetch)".

Definition unlines (ls : list bytes) : bytes :=
  concat (map (fun l => l ++ newline) ls).

(** Does a white-space character start somewhere in [w]? *)
Fixpoint has_space (w : bytes) : bool :=
  match w with
  | [] => false
  | _ :: t => (0 <? space_len w)%nat || has_space t
  end.

(** A name or a URL: a non-empty word without white space. *)
Definition token (w : bytes) : Prop := w <> [] /\ has_space w = false.

(** The text is empty or starts with an ASCII byte. *)
Definition ascii_head (rest : bytes) : bool :=
  match rest with
  | [] => true
  | c :: _ => (code c <? 128)%N
  end.

Definition no_byte (c : ascii) (w : bytes) : bool :=
  forallb (fun x => negb (Ascii.eqb x c)) w.

(** The lines that come before the first one with "fetch" in it. *)
Definition before_fetch (ls : list bytes) : Prop :=
  Forall (fun l => no_byte "010" l = true /\ Contains l (B "fetch") = false) ls.

(** The last element [repo] of the path of a URL and what follows it:
    either the suffix ".git", or nothing, [repo] then being the name as it
    stands, not ending in ".git" itself. *)
Definition repo_name (repo sfx : bytes) : Prop :=
  repo <> [] /\ no_byte "/" repo = true
  /\ (sfx = B ".git" \/ (sfx = [] /\ HasSuffix repo (B ".git") = false)).

(** The SSH shorthand user@host:org/repo and the form
    scheme://host/org/repo, with what follows [repo]. *)
Definition ssh_url (user host org repo sfx : bytes) : bytes :=
  user ++ B "@" ++ host ++ B ":" ++ org ++ B "/" ++ repo ++ sfx.

Definition https_url (scheme host org repo sfx : bytes) : bytes :=
  scheme ++ B "://" ++ host ++ B "/" ++ org ++ B "/" ++ repo ++ sfx.

(** A digit of an abbreviated hash, as the pattern of [Release] has it. *)
Definition is_hex (c : ascii) : bool :=
  in_range "a" "f" c || in_range "0" "9" c.

(** A world without [PROJECT_NAME] where every git query prints [out]. *)
Definition printing (out : bytes) : world := World [] (fun _ => Some out).

Definition push_line : bytes :=
  B "origin" ++ tab ++ B "git@github.com:Deppkepa/semver-git.git (push)"
  ++ newline.

Definition push_line_https : bytes :=
  B "origin" ++ tab ++ B "https://github.com/Deppkepa/semver-git.git (push)"
  ++ newline.

(** Listings of [git remote -v] for one remote, with both its lines. *)
Definition listing (name url : bytes) : bytes :=
  fetch_line name url ++ newline
  ++ name ++ tab ++ url ++ B " (push)" ++ newline.

(** Neither [-h] nor [-V] is given. *)
Definition flags_off (f : flags) : Prop :=
  helpFlag f = false /\ versionFlag f = false.

(** The recognized values of [-s] and the recognized commands. *)
Definition known_strategy (s : bytes) : bool :=
  bytes_eqb s (B "tag") || bytes_eqb s (B "abbrev") || bytes_eqb s (B "rank").

Definition known_command (c : bytes) : bool :=
  bytes_eqb c (B "project") || bytes_eqb c (B "module")
  || bytes_eqb c (B "version") || bytes_eqb c (B "release")
  || bytes_eqb c (B "full").

(** What the dispatch of [main] prints for a recognized command: the
    version under a recognized strategy, the value of [RELEASE] that the
    flag [-r] gives, and the text written on standard output. *)
Definition version_of (s : bytes) (w : world) : bytes :=
  if bytes_eqb s (B "tag") then versionTag w
  else if bytes_eqb s (B "abbrev") then versionAbbrev w
  else versionRank w.

Definition release_of (f : flags) : Z := if releaseFlag f then 1%Z else 0%Z.

Definition answer (f : flags) (command : bytes) (w : world) : bytes :=
  if bytes_eqb command (B "project") then Project w ++ newline
  else if bytes_eqb command (B "module") then Module w ++ newline
  else if bytes_eqb command (B "version") then
    version_of (strategy f) w ++ newline
  else if bytes_eqb command (B "release") then
    Release (release_of f) w ++ newline
  else
    Project w ++ B "-" ++ version_of (strategy f) w ++ B "-"
    ++ Release (release_of f) w.

(** A world without [PROJECT_NAME] where every git query fails. *)
Definition failing : world := World [] (fun _ => None).


(** A repository as the tool meets it: no [PROJECT_NAME], the remote
    origin of this project over HTTPS, the tag v1.2.3-rc.1 five commits
    back; any other query fails. *)
Definition same_args (a b : list bytes) : bool :=
  if list_eq_dec (list_eq_dec ascii_dec) a b then true else false.

Definition sample : world :=
  World []
    (fun args =>
       if same_args args git_remote
       then Some (listing (B "origin")
                    (B "https://github.com/Deppkepa/semver-git.git"))
       else if same_args args
                 (git_describe "--abbrev=0" [B "--tags"; B "HEAD"])
       then Some (B "v1.2.3-rc.1" ++ newline)
       else if same_args args describe_release
       then Some (B "v1.2.3-rc.1-5-gab" ++ newline)
       else None).

(** The listing of several remotes, each given by its name and its URL. *)
Definition listing_of (remotes : list (bytes * bytes)) : bytes :=
  concat (map (fun r => listing (fst r) (snd r)) remotes).

(** A remote whose URL is a path of the file system: no colon in it. *)
Definition local_remote (r : bytes * bytes) : Prop :=
  token (fst r) /\ token (snd r) /\ no_byte ":" (snd r) = true.


(** The command lines of the describe queries of [versionTag] and of
    [versionRank]. *)
Definition describe_tag : list bytes :=
  git_describe "--abbrev=0" [B "--tags"; B "HEAD"].

Definition describe_rank : list bytes :=
  git_describe "--abbrev=0" [B "--always"; B "--tags"].


(** The flags that [main] defines, with the variables they set, and the
    values of the variables before [flag.Parse]. *)
Definition set_help (b : bool) (f : flags) : flags :=
  Flags b (debugFlag f) (noColor f) (versionFlag f) (releaseFlag f)
    (strategy f).
Definition set_debug (b : bool) (f : flags) : flags :=
  Flags (helpFlag f) b (noColor f) (versionFlag f) (releaseFlag f)
    (strategy f).
Definition set_noColor (b : bool) (f : flags) : flags :=
  Flags (helpFlag f) (debugFlag f) b (versionFlag f) (releaseFlag f)
    (strategy f).
Definition set_version (b : bool) (f : flags) : flags :=
  Flags (helpFlag f) (debugFlag f) (noColor f) b (releaseFlag f)
    (strategy f).
Definition set_release (b : bool) (f : flags) : flags :=
  Flags (helpFlag f) (debugFlag f) (noColor f) (versionFlag f) b
    (strategy f).
Definition set_strategy (s : bytes) (f : flags) : flags :=
  Flags (helpFlag f) (debugFlag f) (noColor f) (versionFlag f)
    (releaseFlag f) s.

Definition flagset : list (bytes * flag_def flags) :=
  [(B "h", BoolVar set_help); (B "help", BoolVar set_help);
   (B "d", BoolVar set_debug); (B "debug", BoolVar set_debug);
   (B "no-color", BoolVar set_noColor);
   (B "V", BoolVar set_version); (B "version", BoolVar set_version);
   (B "r", BoolVar set_release); (B "release", BoolVar set_release);
   (B "s", StringVar set_strategy); (B "strategy", StringVar set_strategy)].

Definition defaults : flags := Flags false false false false false (B "tag").

(** [flag.Parse()] on the arguments of the process. *)
Definition parse_line (argv : list bytes) : parsed flags :=
  Parse flagset defaults argv.

(** The whole program on the arguments of the process: what it writes on
    standard output and its exit status. *)
Definition run (argv : list bytes) (w : world) : bytes * Z :=
  match parse_line argv with
  | Parsed f args => exec (main f args w)
  | Failed => ([], 2%Z)
  | HelpAsked => ([], 0%Z)
  end.

End Describe.

(** * Properties *)

(** ** Byte strings and the library model *)

Lemma bytes_eqb_eq a b : bytes_eqb a b = true <-> a = b.
Proof.
  unfold bytes_eqb. destruct (list_eq_dec ascii_dec a b); split; congruence.
Qed.

(** Some evaluations of the library model. *)
Example Split_ex :
  Split (B "a/b//c") (B "/") = [B "a"; B "b"; B ""; B "c"]
  /\ Split (B "") (B "/") = [B ""]
  /\ SplitN (B "git@host:a:b") (B ":") 2 = [B "git@host"; B "a:b"]
  /\ SplitN (B "nocolon") (B ":") 2 = [B "nocolon"].
Proof. repeat split; reflexivity. Qed.

Example Fields_ex :
  Fields (B "  origin  url (fetch) ") = [B "origin"; B "url"; B "(fetch)"]
  /\ Fields (B "") = []
  /\ TrimSpace (B " v1.0.0  ") = B "v1.0.0".
Proof. repeat split; vm_compute; reflexivity. Qed.

Example Base_ex :
  Base (B "org/repo") = B "repo" /\ Base (B "org/") = B "org"
  /\ Base (B "///") = B "/" /\ Base (B "") = B ".".
Proof. repeat split; reflexivity. Qed.

Example Replace_ex :
  Replace (B "v1-2-g3") (B "-g") (B "") 1 = B "v1-23"
  /\ Replace (B "a-b-c") (B "-") (B "~") 1 = B "a~b-c"
  /\ ReplaceAll (B "a/b/c") (B "/") (B "-") = B "a-b-c"
  /\ Strings [B "v2"; B "v10"; B "v1"] = [B "v1"; B "v10"; B "v2"].
Proof. repeat split; reflexivity. Qed.

(** ** The matcher and the language of a pattern *)

#[local] Hint Constructors lang : core.

Lemma lang_void_inv s : lang Void s -> False.
Proof. intros H; inversion H. Qed.

Lemma lang_eps_inv s : lang Eps s -> s = [].
Proof. intros H; inversion H; reflexivity. Qed.

Lemma lang_chr_inv c s : lang (Chr c) s -> s = [c].
Proof. intros H; inversion H; reflexivity. Qed.

Lemma lang_rng_inv lo hi s :
  lang (Rng lo hi) s -> exists c, s = [c] /\ in_range lo hi c = true.
Proof. intros H; inversion H; subst; eauto. Qed.

Lemma lang_cat_inv r1 r2 s :
  lang (Cat r1 r2) s ->
  exists s1 s2, s = s1 ++ s2 /\ lang r1 s1 /\ lang r2 s2.
Proof. intros H; inversion H; subst; eauto. Qed.

Lemma lang_alt_inv r1 r2 s : lang (Alt r1 r2) s -> lang r1 s \/ lang r2 s.
Proof. intros H; inversion H; subst; auto. Qed.

Lemma lang_cat_cons r1 r2 c s1 s2 :
  lang r1 (c :: s1) -> lang r2 s2 -> lang (Cat r1 r2) (c :: s1 ++ s2).
Proof. intros H1 H2. apply (LCat _ _ _ _ H1 H2). Qed.

Lemma lang_cat_nil r1 r2 s : lang r1 [] -> lang r2 s -> lang (Cat r1 r2) s.
Proof. intros H1 H2. apply (LCat _ _ _ _ H1 H2). Qed.

Lemma nullable_lang r : nullable r = true <-> lang r [].
Proof.
  induction r; simpl; split; intros H; try discriminate; auto.
  - destruct (lang_void_inv _ H).
  - apply lang_chr_inv in H; discriminate.
  - apply lang_rng_inv in H as (c & E & _); discriminate.
  - apply andb_true_iff in H as [H1 H2]. apply lang_cat_nil; tauto.
  - apply lang_cat_inv in H as (s1 & s2 & E & H1 & H2).
    symmetry in E. apply app_eq_nil in E as [-> ->].
    apply andb_true_iff; tauto.
  - apply orb_true_iff in H as [H | H]; [apply LAltL | apply LAltR]; tauto.
  - apply orb_true_iff. apply lang_alt_inv in H; tauto.
Qed.

Lemma star_cons r c s :
  lang (Star r) (c :: s) ->
  exists s1 s2, s = s1 ++ s2 /\ lang r (c :: s1) /\ lang (Star r) s2.
Proof.
  intros H. remember (Star r) as r' eqn:Er. remember (c :: s) as w eqn:Ew.
  revert Er Ew.
  induction H as [| | | | | | |r0 s1 s2 H1 _ H2 IH2]; intros Er Ew;
    try discriminate.
  injection Er as ->. destruct s1 as [|c1 s1]; simpl in Ew.
  - apply IH2; auto.
  - injection Ew as Ec Es. subst c1 s. eauto.
Qed.

Lemma deriv_lang r : forall c s, lang (deriv c r) s <-> lang r (c :: s).
Proof.
  induction r as [| |a|lo hi|r1 IH1 r2 IH2|r1 IH1 r2 IH2|r IH];
    intros c s; simpl.
  - split; intros H; destruct (lang_void_inv _ H).
  - split; intros H; [destruct (lang_void_inv _ H)|].
    apply lang_eps_inv in H; discriminate.
  - destruct (Ascii.eqb_spec c a) as [-> | Hne]; split; intros H.
    + apply lang_eps_inv in H as ->. constructor.
    + apply lang_chr_inv in H. injection H as ->. constructor.
    + destruct (lang_void_inv _ H).
    + apply lang_chr_inv in H. congruence.
  - destruct (in_range lo hi c) eqn:E; split; intros H.
    + apply lang_eps_inv in H as ->. constructor; assumption.
    + apply lang_rng_inv in H as (c' & E' & _). injection E' as -> ->.
      constructor.
    + destruct (lang_void_inv _ H).
    + apply lang_rng_inv in H as (c' & E' & Hr). injection E' as -> ->.
      congruence.
  - split; intros H.
    + apply lang_alt_inv in H as [H | H].
      * apply lang_cat_inv in H as (s1 & s2 & -> & H1 & H2).
        apply lang_cat_cons; [apply IH1|]; assumption.
      * destruct (nullable r1) eqn:E; [| destruct (lang_void_inv _ H)].
        apply nullable_lang in E. apply IH2 in H.
        apply lang_cat_nil; assumption.
    + apply lang_cat_inv in H as (s1 & s2 & E & H1 & H2).
      destruct s1 as [|c1 s1]; simpl in E.
      * subst s2. apply LAltR. apply nullable_lang in H1. rewrite H1.
        apply IH2; assumption.
      * injection E as -> ->. apply LAltL. constructor; auto.
        apply IH1; assumption.
  - split; intros H; apply lang_alt_inv in H as [H | H];
      solve [apply LAltL, IH1; assumption | apply LAltR, IH2; assumption].
  - split; intros H.
    + apply lang_cat_inv in H as (s1 & s2 & -> & H1 & H2).
      apply IH in H1. apply (LStarS _ _ _ H1 H2).
    + apply star_cons in H as (s1 & s2 & -> & H1 & H2).
      constructor; auto. apply IH; assumption.
Qed.

(** The matcher decides the language. *)
Lemma matches_lang r s : matches r s = true <-> lang r s.
Proof.
  revert r. induction s as [|c s IH]; intros r; simpl.
  - apply nullable_lang.
  - rewrite IH. apply deriv_lang.
Qed.

Lemma not_matches_lang r s : matches r s = false <-> ~ lang r s.
Proof.
  rewrite <- matches_lang. destruct (matches r s); split; congruence.
Qed.


(** ** The version classifier *)

Section Classifier.

Import VersionCheck.

Lemma exec_report_exit (f : flags) (lbl bt : bytes) (k : proc unit) :
  exec (when true
          (when (typeFlag f) (Println lbl) ;;
           when (buildTypeFlag f) (Println bt) ;;
           os_Exit 0) ;; k)
  = ((if typeFlag f then line lbl else [])
     ++ (if buildTypeFlag f then line bt else []), 0%Z).
Proof.
  unfold exec, bind, when, Println, Printf, os_Exit, ret, line.
  destruct (typeFlag f), (buildTypeFlag f); simpl; rewrite ?app_nil_r;
    reflexivity.
Qed.

Lemma when_false_bind {A} (p : proc unit) (k : proc A) :
  (when false p ;; k) = k.
Proof. reflexivity. Qed.

(** What [checkVersion] prints and the status it exits with. *)
Lemma exec_checkVersion (f : flags) (s : bytes) :
  exec (checkVersion f s)
  = match classify s with
    | Some c => (report f c, 0%Z)
    | None => ([], 1%Z)
    end.
Proof.
  unfold classify, precedence, checkVersion. cbn [find pattern].
  destruct (MatchString versionRelease s);
    [apply exec_report_exit | rewrite when_false_bind].
  destruct (MatchString versionPrerelease s);
    [apply exec_report_exit | rewrite when_false_bind].
  destruct (MatchString versionPostrelease s);
    [apply exec_report_exit | rewrite when_false_bind].
  destruct (MatchString versionIntermediate s);
    [apply exec_report_exit | rewrite when_false_bind].
  reflexivity.
Qed.

(** C1.  [checkVersion] tries the release, pre-release, post-release and
    intermediate patterns in this order and stops at the first that
    matches: it prints the label of that category under [-t], then its
    build type under [-b] (Release for a release, Debug for the three
    others), and exits with status 0.  So 1.2.3 is a Release built as
    Release, 1.2.3-beta.1 a Pre release, 1.2.3.fix.2 a Post release and
    1.2.3_patched.1 an Intermediate release, all three built as Debug. *)
Theorem checkVersion_first_match :
  (forall (f : flags) (s : bytes),
      exec (checkVersion f s)
      = match find (fun c => MatchString (pattern c) s)
                [Release; PreRelease; PostRelease; Intermediate] with
        | Some c =>
            ((if typeFlag f then line (label c) else [])
             ++ (if buildTypeFlag f then line (build_type c) else []), 0%Z)
        | None => ([], 1%Z)
        end)
  /\ (build_type Release = B "Release"
      /\ build_type PreRelease = B "Debug"
      /\ build_type PostRelease = B "Debug"
      /\ build_type Intermediate = B "Debug")
  /\ classify (B "1.2.3") = Some Release
  /\ classify (B "1.2.3-beta.1") = Some PreRelease
  /\ classify (B "1.2.3.fix.2") = Some PostRelease
  /\ classify (B "1.2.3_patched.1") = Some Intermediate
  /\ (let f := Flags false false false true true false false in
      exec (checkVersion f (B "1.2.3"))
      = (line (B "Release") ++ line (B "Release"), 0%Z)
      /\ exec (checkVersion f (B "1.2.3-beta.1"))
         = (line (B "Pre release") ++ line (B "Debug"), 0%Z)
      /\ exec (checkVersion f (B "1.2.3.fix.2"))
         = (line (B "Post release") ++ line (B "Debug"), 0%Z)
      /\ exec (checkVersion f (B "1.2.3_patched.1"))
         = (line (B "Intermediate release") ++ line (B "Debug"), 0%Z)).
Proof.
  split; [exact exec_checkVersion |].
  split; [repeat split; reflexivity |].
  repeat split; vm_compute; reflexivity.
Qed.

Lemma main_flags_off (f : flags) (args : list bytes) :
  flags_off f ->
  main f args
  = (when (length args =? 0)%nat (os_Exit 1) ;; checkVersion f (nth 0 args [])).
Proof.
  intros (H1 & H2 & H3). unfold main. rewrite H1, H2, H3. reflexivity.
Qed.

Lemma status_checkVersion (f : flags) (s : bytes) :
  classify s <> None -> status (checkVersion f s) = 0%Z.
Proof.
  intros H. unfold status. rewrite exec_checkVersion.
  destruct (classify s); [reflexivity | congruence].
Qed.

(** After [flag.Parse], with none of [-h], [-V] and [-r] set, [main]
    exits with status 1 and prints nothing when there is no argument and
    when the first argument matches none of the four patterns; under any
    flags it exits with status 0 when the first argument matches one. *)
Lemma main_exit_status :
  (forall f, flags_off f -> exec (main f []) = ([], 1%Z))
  /\ (forall f v rest,
        flags_off f -> classify v = None ->
        exec (main f (v :: rest)) = ([], 1%Z))
  /\ (forall f v rest,
        classify v <> None -> status (main f (v :: rest)) = 0%Z).
Proof.
  split; [| split].
  - intros f Hf. rewrite (main_flags_off f [] Hf). reflexivity.
  - intros f v rest Hf Hv. rewrite (main_flags_off f (v :: rest) Hf).
    cbn [length Nat.eqb nth]. rewrite when_false_bind.
    rewrite exec_checkVersion, Hv. reflexivity.
  - intros f v rest Hv. unfold main.
    destruct (helpFlag f); [reflexivity | rewrite when_false_bind].
    destruct (versionFlag f); [reflexivity | rewrite when_false_bind].
    destruct (rulesFlag f); [reflexivity | rewrite when_false_bind].
    cbn [length Nat.eqb nth]. rewrite when_false_bind.
    apply status_checkVersion; assumption.
Qed.

End Classifier.

(** ** The four patterns exclude one another *)

Section Exclusive.

Import VersionCheck.

Lemma lang_star_ind (r : re) (P : bytes -> Prop) :
  P [] ->
  (forall s1 s2, lang r s1 -> P s2 -> P (s1 ++ s2)) ->
  forall s, lang (Star r) s -> P s.
Proof.
  intros H0 HS s H. remember (Star r) as r' eqn:Er. revert Er.
  induction H as [| | | | | | |r0 s1 s2 H1 _ H2 IH2]; intros Er;
    try discriminate; auto.
  injection Er as ->. auto.
Qed.

Lemma lang_number d :
  lang number d -> d <> [] /\ forallb is_digit d = true.
Proof.
  intros H. apply lang_cat_inv in H as (s1 & s2 & -> & H1 & H2).
  apply lang_rng_inv in H1 as (c & -> & Hc). split; [discriminate|].
  simpl. unfold is_digit at 1. rewrite Hc. simpl.
  apply (lang_star_ind (Rng "0" "9") (fun s => forallb is_digit s = true));
    [reflexivity | | exact H2].
  intros x y Hx Hy. apply lang_rng_inv in Hx as (c' & -> & Hc').
  simpl. unfold is_digit at 1. rewrite Hc'. exact Hy.
Qed.

Lemma drop_digits d a :
  forallb is_digit d = true -> no_digit_head a = true ->
  drop_while is_digit (d ++ a) = a.
Proof.
  intros Hd Ha. induction d as [|c d IH]; simpl in *.
  - destruct a as [|x a]; simpl in *; [reflexivity|].
    apply negb_true_iff in Ha. rewrite Ha. reflexivity.
  - apply andb_true_iff in Hd as [Hc Hd]. rewrite Hc. auto.
Qed.

Lemma digit_not_v c : is_digit c = true -> Ascii.eqb c "v" = false.
Proof.
  intros H. destruct (Ascii.eqb_spec c "v") as [-> |]; [discriminate H | reflexivity].
Qed.

Lemma strip_triple_app p a :
  lang triple p -> no_digit_head a = true -> strip_triple (p ++ a) = Some a.
Proof.
  intros H Ha. unfold triple in H.
  apply lang_cat_inv in H as (o & p1 & -> & Ho & H).
  apply lang_cat_inv in H as (d1 & p2 & -> & H1 & H).
  apply lang_cat_inv in H as (x1 & p3 & -> & Hx1 & H).
  apply lang_cat_inv in H as (d2 & p4 & -> & H2 & H).
  apply lang_cat_inv in H as (x2 & d3 & -> & Hx2 & H3).
  apply lang_chr_inv in Hx1 as ->. apply lang_chr_inv in Hx2 as ->.
  apply lang_number in H1 as [N1 D1], H2 as [N2 D2], H3 as [N3 D3].
  assert (E : strip_v ((o ++ d1 ++ ["."%char] ++ d2 ++ ["."%char] ++ d3) ++ a)
              = d1 ++ "."%char :: d2 ++ "."%char :: d3 ++ a).
  { apply lang_alt_inv in Ho as [Ho | Ho].
    - apply lang_chr_inv in Ho as ->. simpl.
      rewrite <- !app_assoc. simpl. rewrite <- !app_assoc. reflexivity.
    - apply lang_eps_inv in Ho as ->. simpl. rewrite <- !app_assoc. simpl.
      rewrite <- !app_assoc. simpl.
      destruct d1 as [|c d1]; [congruence|]. simpl in *.
      apply andb_true_iff in D1 as [Hc _]. rewrite (digit_not_v _ Hc).
      reflexivity. }
  unfold strip_triple. rewrite E.
  rewrite (drop_digits d1 ("."%char :: d2 ++ "."%char :: d3 ++ a) D1 eq_refl).
  simpl.
  rewrite (drop_digits d2 ("."%char :: d3 ++ a) D2 eq_refl). simpl.
  rewrite (drop_digits d3 a D3 Ha). reflexivity.
Qed.

(** A string that matches the pattern of a category is a triple followed
    by a text whose first byte names that category. *)
Lemma match_tail_kind s c :
  MatchString (pattern c) s = true -> tail_kind s = Some c.
Proof.
  unfold MatchString. intros H. apply matches_lang in H. unfold tail_kind.
  destruct c; simpl in H.
  - rewrite <- (app_nil_r s).
    rewrite strip_triple_app; [reflexivity | assumption | reflexivity].
  - apply lang_cat_inv in H as (p & a & -> & Hp & H).
    apply lang_cat_inv in H as (x & b & -> & Hx & _).
    apply lang_alt_inv in Hx as [Hx | Hx]; apply lang_chr_inv in Hx as ->;
      (rewrite strip_triple_app; [reflexivity | assumption | reflexivity]).
  - apply lang_cat_inv in H as (p & a & -> & Hp & H).
    apply lang_cat_inv in H as (x & b & -> & Hx & _).
    apply lang_chr_inv in Hx as ->.
    rewrite strip_triple_app; [reflexivity | assumption | reflexivity].
  - apply lang_cat_inv in H as (p & a & -> & Hp & H).
    apply lang_cat_inv in H as (x & b & -> & Hx & _).
    apply lang_chr_inv in Hx as ->.
    rewrite strip_triple_app; [reflexivity | assumption | reflexivity].
Qed.

Lemma match_other s c c' :
  tail_kind s = Some c -> c' <> c -> MatchString (pattern c') s = false.
Proof.
  intros Hk Hne. destruct (MatchString (pattern c') s) eqn:E; [|reflexivity].
  apply match_tail_kind in E. congruence.
Qed.

(** C5.  No version string matches more than one of the four patterns;
    in particular none matches both the post-release pattern and the
    intermediate one. *)
Theorem patterns_mutually_exclusive :
  forall s : bytes,
    (length (matching s) <= 1)%nat
    /\ MatchString versionPostrelease s && MatchString versionIntermediate s
       = false.
Proof.
  intros s. unfold matching, precedence. cbn [filter].
  change versionPostrelease with (pattern PostRelease).
  change versionIntermediate with (pattern Intermediate).
  destruct (tail_kind s) as [c|] eqn:Hk.
  - destruct c;
      rewrite ?(match_other s _ Release Hk), ?(match_other s _ PreRelease Hk),
        ?(match_other s _ PostRelease Hk), ?(match_other s _ Intermediate Hk)
        by discriminate;
      match goal with
      | |- context [MatchString (pattern ?c) s] =>
          destruct (MatchString (pattern c) s)
      end; simpl; split; (lia || reflexivity).
  - assert (N : forall c, MatchString (pattern c) s = false).
    { intros c. destruct (MatchString (pattern c) s) eqn:E; [|reflexivity].
      apply match_tail_kind in E. congruence. }
    rewrite !N. split; [simpl; lia | reflexivity].
Qed.

End Exclusive.

(** ** The library functions on the shapes met in a listing *)

Section Library.

Import Describe.

Lemma HasPrefix_app (p x : bytes) : HasPrefix (p ++ x) p = true.
Proof.
  induction p as [|c p IH]; simpl; [reflexivity|].
  rewrite Ascii.eqb_refl. exact IH.
Qed.

Lemma Contains_app_r (a b sub : bytes) :
  Contains b sub = true -> Contains (a ++ b) sub = true.
Proof.
  intros H. induction a as [|c a IH]; simpl; [exact H|].
  rewrite IH. apply orb_true_r.
Qed.

Lemma HasSuffix_app (x suf : bytes) : HasSuffix (x ++ suf) suf = true.
Proof. unfold HasSuffix. rewrite rev_app_distr. apply HasPrefix_app. Qed.

Lemma TrimSuffix_app (x suf : bytes) : TrimSuffix (x ++ suf) suf = x.
Proof.
  unfold TrimSuffix. rewrite HasSuffix_app, length_app, Nat.add_sub.
  rewrite firstn_app, Nat.sub_diag, firstn_all. simpl. apply app_nil_r.
Qed.

Lemma HasPrefix_sep (c : ascii) (p r x : bytes) :
  no_byte c p = true -> HasPrefix r p = false ->
  HasPrefix (r ++ c :: x) p = false.
Proof.
  revert r. induction p as [|q p IH]; intros r Hp Hr; simpl in *.
  - destruct r; discriminate.
  - apply andb_true_iff in Hp as [Hq Hp]. destruct r as [|d r]; simpl.
    + apply negb_true_iff in Hq. rewrite Ascii.eqb_sym, Hq. reflexivity.
    + destruct (Ascii.eqb d q); simpl in *; [auto | reflexivity].
Qed.

Lemma rev_sep (c : ascii) (x r : bytes) :
  rev (x ++ c :: r) = rev r ++ c :: rev x.
Proof. rewrite rev_app_distr. simpl. rewrite <- app_assoc. reflexivity. Qed.

(** A path that ends in a slash and a name keeps its suffix when the
    name does not end in ".git". *)
Lemma TrimSuffix_keep (x repo : bytes) :
  HasSuffix repo (B ".git") = false ->
  TrimSuffix (x ++ "/"%char :: repo) (B ".git") = x ++ "/"%char :: repo.
Proof.
  intros H. unfold TrimSuffix.
  replace (HasSuffix (x ++ "/"%char :: repo) (B ".git")) with false;
    [reflexivity|].
  symmetry. unfold HasSuffix in *. rewrite rev_sep.
  apply HasPrefix_sep; [reflexivity | exact H].
Qed.

Lemma drop_while_head (f : ascii -> bool) (s : bytes) :
  match s with [] => True | c :: _ => f c = false end ->
  drop_while f s = s.
Proof. destruct s as [|c s]; simpl; [reflexivity|]. intros ->. reflexivity. Qed.

Lemma take_while_app (f : ascii -> bool) (r : bytes) (c : ascii) (x : bytes) :
  forallb f r = true -> f c = false -> take_while f (r ++ c :: x) = r.
Proof.
  intros Hr Hc. induction r as [|d r IH]; simpl in *.
  - rewrite Hc. reflexivity.
  - apply andb_true_iff in Hr as [Hd Hr]. rewrite Hd, IH by assumption.
    reflexivity.
Qed.

Lemma forallb_rev {A} (f : A -> bool) (l : list A) :
  forallb f (rev l) = forallb f l.
Proof.
  induction l as [|a l IH]; simpl; [reflexivity|].
  rewrite forallb_app, IH. simpl. rewrite andb_true_r. apply andb_comm.
Qed.

(** [filepath.Base] of a path that ends in a slash and a name is the name. *)
Lemma Base_last (x repo : bytes) :
  repo <> [] -> no_byte "/" repo = true ->
  Base (x ++ "/"%char :: repo) = repo.
Proof.
  intros Hne Hr. unfold Base.
  destruct (x ++ "/"%char :: repo) as [|c0 p0] eqn:E.
  { destruct x; discriminate. }
  rewrite <- E. clear E c0 p0.
  pose proof (rev_sep "/" x repo) as R.
  assert (D : drop_while is_sep (rev (x ++ "/"%char :: repo))
              = rev (x ++ "/"%char :: repo)).
  { apply drop_while_head. rewrite R.
    destruct (rev repo) as [|c r] eqn:Er.
    - apply (f_equal (@rev ascii)) in Er. rewrite rev_involutive in Er.
      simpl in Er. congruence.
    - simpl. assert (H : no_byte "/" (rev repo) = true)
        by (unfold no_byte; rewrite forallb_rev; exact Hr).
      rewrite Er in H. simpl in H. apply andb_true_iff in H as [H _].
      apply negb_true_iff in H. exact H. }
  rewrite D, rev_involutive, R.
  rewrite take_while_app.
  - rewrite rev_involutive. destruct repo; [congruence | reflexivity].
  - unfold no_byte in Hr. rewrite forallb_rev. exact Hr.
  - reflexivity.
Qed.

(** Splitting at line feeds: a line without line feed, a line feed, the
    rest. *)
Lemma Split_line (l rest : bytes) :
  no_byte "010" l = true ->
  Split (l ++ newline ++ rest) newline = l :: Split rest newline.
Proof.
  intros H. unfold Split, newline. simpl.
  induction l as [|c l IH]; simpl in *.
  - reflexivity.
  - apply andb_true_iff in H as [Hc H]. apply negb_true_iff in Hc.
    rewrite Hc. simpl. rewrite IH by assumption. reflexivity.
Qed.

Lemma Split_unlines (ls : list bytes) (rest : bytes) :
  Forall (fun l => no_byte "010" l = true) ls ->
  Split (unlines ls ++ rest) newline = ls ++ Split rest newline.
Proof.
  intros H. induction H as [|l ls Hl _ IH]; [reflexivity|].
  change (unlines (l :: ls)) with ((l ++ newline) ++ unlines ls).
  rewrite <- !app_assoc. rewrite Split_line by assumption.
  rewrite IH. reflexivity.
Qed.

(** Cutting at the first colon: the second piece ends with whatever
    follows any colon of the text. *)
Lemma SplitN_colon (a rest : bytes) :
  exists x pre, SplitN (a ++ ":"%char :: rest) (B ":") 2 = [x; pre ++ rest].
Proof.
  unfold SplitN. simpl.
  induction a as [|c a (x & pre & IH)]; simpl.
  - exists [], []. destruct rest; reflexivity.
  - destruct (Ascii.eqb c ":") eqn:E; simpl.
    + exists [], (a ++ [":"%char]). rewrite <- app_assoc. simpl.
      destruct (a ++ ":"%char :: rest) eqn:E'; [destruct a; discriminate|].
      reflexivity.
    + rewrite IH. simpl. eauto.
Qed.

Ltac bool_to_prop :=
  repeat match goal with
         | H : (_ || _) = true |- _ => apply orb_true_iff in H as [H | H]
         | H : (_ && _) = true |- _ => apply andb_true_iff in H as [? H]
         | H : (_ || _) = false |- _ => apply orb_false_iff in H as [? H]
         | H : (_ =? _)%N = true |- _ => apply N.eqb_eq in H
         | H : (_ =? _)%N = false |- _ => apply N.eqb_neq in H
         | H : (_ <=? _)%N = true |- _ => apply N.leb_le in H
         | H : (_ <=? _)%N = false |- _ => apply N.leb_gt in H
         end.

(** A white-space character is made of ASCII bytes only or of bytes
    above 127 only: none starts in a text and ends in ASCII text put
    after it. *)
Lemma space_len_app (t rest : bytes) :
  t <> [] -> space_len t = 0%nat -> ascii_head rest = true ->
  space_len (t ++ rest) = 0%nat.
Proof.
  intros Hne H Hr. destruct t as [|c t]; [congruence|]. clear Hne.
  destruct rest as [|r rest]; [rewrite app_nil_r; exact H|].
  simpl in Hr. apply N.ltb_lt in Hr.
  destruct t as [|d [|e t]]; cbn [app space_len] in *;
    repeat match goal with
           | H : context [if ?b then _ else _] |- _ =>
               destruct b eqn:?; try discriminate H
           end;
    try reflexivity;
    repeat match goal with
           | |- context [if ?b then _ else _] => destruct b eqn:?
           | |- context [match ?l with [] => _ | _ :: _ => _ end] => destruct l
           end;
    try reflexivity; exfalso; bool_to_prop; lia.
Qed.

Lemma has_space_cons (c : ascii) (w : bytes) :
  has_space (c :: w) = false ->
  space_len (c :: w) = 0%nat /\ has_space w = false.
Proof.
  cbn [has_space]. intros H. apply orb_false_iff in H as [H1 H2].
  split; [| exact H2]. destruct (space_len (c :: w)); [reflexivity|].
  discriminate H1.
Qed.

(** [Fields] reads a word without white space whole. *)
Lemma fields_go_word (w cur rest : bytes) :
  has_space w = false -> ascii_head rest = true ->
  fields_go 0 cur (w ++ rest) = fields_go 0 (cur ++ w) rest.
Proof.
  revert cur. induction w as [|c w IH]; intros cur H Hr.
  - rewrite app_nil_r. reflexivity.
  - apply has_space_cons in H as [Hc H].
    pose proof (space_len_app (c :: w) rest ltac:(discriminate) Hc Hr) as E.
    change ((c :: w) ++ rest) with (c :: w ++ rest) in *.
    cbn [fields_go]. rewrite E. rewrite IH by assumption.
    rewrite <- app_assoc. reflexivity.
Qed.

Lemma Fields_fetch_line (name url : bytes) :
  token name -> token url ->
  Fields (fetch_line name url) = [name; url; B "(fetch)"].
Proof.
  intros [Hn Pn] [Hu Pu]. unfold Fields, fetch_line, tab.
  rewrite fields_go_word by (assumption || reflexivity). simpl.
  rewrite fields_go_word by (assumption || reflexivity). simpl.
  destruct name; [congruence|]. destruct url; [congruence|]. reflexivity.
Qed.

Lemma Contains_fetch_line (name url : bytes) :
  Contains (fetch_line name url) (B "fetch") = true.
Proof.
  unfold fetch_line. rewrite !app_assoc. apply Contains_app_r. reflexivity.
Qed.

End Library.

(** ** The module name *)

Section ModuleName.

Import Describe.

Lemma Module_loop_skip (ls more : list bytes) :
  Forall (fun l => Contains l (B "fetch") = false) ls ->
  Module_loop (ls ++ more) = Module_loop more.
Proof.
  intros H. induction H as [|l ls Hl _ IH]; [reflexivity|].
  cbn [app Module_loop]. rewrite Hl. exact IH.
Qed.

(** On a fetch line whose URL has a colon and, after it, a path that
    ends in a slash and the name of the repository, the loop of [Module]
    returns that name. *)
Lemma Module_loop_fetch (name a b repo sfx : bytes) (more : list bytes) :
  token name -> token (a ++ ":"%char :: b ++ "/"%char :: repo ++ sfx) ->
  repo_name repo sfx ->
  Module_loop
    (fetch_line name (a ++ ":"%char :: b ++ "/"%char :: repo ++ sfx) :: more)
  = repo.
Proof.
  intros Hn Hu (Hne & Hr & Hs). cbn [Module_loop].
  rewrite Contains_fetch_line, Fields_fetch_line by assumption.
  cbn [length Nat.ltb Nat.leb nth].
  destruct (SplitN_colon a (b ++ "/"%char :: repo ++ sfx)) as (x & pre & E).
  rewrite E. cbn [length Nat.ltb Nat.leb nth].
  replace (pre ++ b ++ "/"%char :: repo ++ sfx)
    with (((pre ++ b) ++ "/"%char :: repo) ++ sfx)
    by (rewrite <- !app_assoc; reflexivity).
  destruct Hs as [-> | [-> Hs]].
  - rewrite TrimSuffix_app. apply Base_last; assumption.
  - rewrite app_nil_r, TrimSuffix_keep by assumption.
    apply Base_last; assumption.
Qed.

Lemma word_no_newline (w : bytes) :
  has_space w = false -> no_byte "010" w = true.
Proof.
  intros H. induction w as [|c w IH]; [reflexivity|].
  apply has_space_cons in H as [Hc H]. cbn [no_byte forallb].
  fold (no_byte "010" w). rewrite IH by assumption. rewrite andb_true_r.
  apply negb_true_iff.
  destruct (Ascii.eqb_spec c "010") as [-> |]; [discriminate Hc | reflexivity].
Qed.

Lemma no_byte_app (c : ascii) (x y : bytes) :
  no_byte c (x ++ y) = no_byte c x && no_byte c y.
Proof. apply forallb_app. Qed.

Lemma fetch_line_no_newline (name url : bytes) :
  token name -> token url -> no_byte "010" (fetch_line name url) = true.
Proof.
  intros [_ Hn] [_ Hu]. unfold fetch_line. rewrite !no_byte_app.
  rewrite (word_no_newline name), (word_no_newline url) by assumption.
  reflexivity.
Qed.

(** [Module] on a listing: the lines before the first fetch line, that
    line, the rest. *)
Lemma Module_listing (w : world) (ls : list bytes)
  (name a b repo sfx post : bytes) :
  Getenv w (B "PROJECT_NAME") = [] ->
  git w git_remote
  = Some (unlines ls
          ++ fetch_line name (a ++ ":"%char :: b ++ "/"%char :: repo ++ sfx)
          ++ newline ++ post) ->
  before_fetch ls ->
  token name -> token (a ++ ":"%char :: b ++ "/"%char :: repo ++ sfx) ->
  repo_name repo sfx ->
  Module w = repo.
Proof.
  intros He Hg Hls Hn Hu Hr. unfold Module. rewrite He, Hg.
  cbn [bytes_eqb negb].
  replace (negb (bytes_eqb [] [])) with false by reflexivity.
  rewrite Split_unlines.
  - rewrite Split_line by (apply fetch_line_no_newline; assumption).
    rewrite Module_loop_skip.
    + apply Module_loop_fetch; assumption.
    + revert Hls. apply Forall_impl. intros l [_ H]. exact H.
  - revert Hls. apply Forall_impl. intros l [H _]. exact H.
Qed.

(** C6.  With [PROJECT_NAME] unset, when the first line of the listing
    with "fetch" in it is a fetch line whose URL is the SSH shorthand
    user@host:org/repo, followed or not by ".git", [Module] returns repo. *)
Theorem Module_ssh_url :
  forall (w : world) (ls : list bytes)
         (name user host org repo sfx post : bytes),
    Getenv w (B "PROJECT_NAME") = [] ->
    git w git_remote
    = Some (unlines ls
            ++ fetch_line name (ssh_url user host org repo sfx)
            ++ newline ++ post) ->
    before_fetch ls ->
    token name -> token (ssh_url user host org repo sfx) ->
    repo_name repo sfx ->
    Module w = repo.
Proof.
  intros w ls name user host org repo sfx post He Hg Hls Hn Hu Hr.
  assert (E : ssh_url user host org repo sfx
              = (user ++ B "@" ++ host) ++ ":"%char :: org
                ++ "/"%char :: repo ++ sfx).
  { unfold ssh_url. rewrite <- !app_assoc. reflexivity. }
  rewrite E in Hg, Hu.
  apply (Module_listing w ls name (user ++ B "@" ++ host) org repo sfx post);
    assumption.
Qed.

(** The theorem at work on the listing of a clone of this repository
    over SSH. *)
Lemma Module_ssh_url_witness :
  Module
    (World [] (fun _ =>
       Some (fetch_line (B "origin")
               (B "git@github.com:Deppkepa/semver-git.git")
             ++ newline ++ push_line)))
  = B "semver-git".
Proof.
  apply (Module_ssh_url _ [] (B "origin") (B "git") (B "github.com")
           (B "Deppkepa") (B "semver-git") (B ".git") push_line);
    try reflexivity; try (split; [discriminate | reflexivity]).
  - constructor.
  - split; [discriminate | split; [reflexivity | left; reflexivity]].
Defined.

(** C10.  [Module] also works on the form scheme://host/org/repo: with
    [PROJECT_NAME] unset, when the first line of the listing with "fetch"
    in it is a fetch line with such a URL, followed or not by ".git", the
    result is repo: the URL is cut at its first colon, the one of the
    scheme. *)
Theorem Module_https_url :
  forall (w : world) (ls : list bytes)
         (name scheme host org repo sfx post : bytes),
    Getenv w (B "PROJECT_NAME") = [] ->
    git w git_remote
    = Some (unlines ls
            ++ fetch_line name (https_url scheme host org repo sfx)
            ++ newline ++ post) ->
    before_fetch ls ->
    token name -> token (https_url scheme host org repo sfx) ->
    repo_name repo sfx ->
    Module w = repo.
Proof.
  intros w ls name scheme host org repo sfx post He Hg Hls Hn Hu Hr.
  assert (E : https_url scheme host org repo sfx
              = scheme ++ ":"%char :: (B "//" ++ host ++ B "/" ++ org)
                ++ "/"%char :: repo ++ sfx).
  { unfold https_url. rewrite <- !app_assoc. reflexivity. }
  rewrite E in Hg, Hu.
  apply (Module_listing w ls name scheme (B "//" ++ host ++ B "/" ++ org)
           repo sfx post); assumption.
Qed.

(** The theorem at work on the listing of a clone of this repository
    over HTTPS. *)
Lemma Module_https_url_witness :
  Module
    (World [] (fun _ =>
       Some (fetch_line (B "origin")
               (B "https://github.com/Deppkepa/semver-git.git")
             ++ newline ++ push_line_https)))
  = B "semver-git".
Proof.
  apply (Module_https_url _ [] (B "origin") (B "https") (B "github.com")
           (B "Deppkepa") (B "semver-git") (B ".git") push_line_https);
    try reflexivity; try (split; [discriminate | reflexivity]).
  - constructor.
  - split; [discriminate | split; [reflexivity | left; reflexivity]].
Defined.

End ModuleName.

(** ** The release number *)

Section ReleaseNumber.

Import Describe.

Lemma lang_plus_class (r : re) (f : ascii -> bool) :
  (forall x, lang r x -> exists c, x = [c] /\ f c = true) ->
  forall d, lang (plus r) d -> d <> [] /\ forallb f d = true.
Proof.
  intros Hr d H. apply lang_cat_inv in H as (s1 & s2 & -> & H1 & H2).
  apply Hr in H1 as (c & -> & Hc). split; [discriminate|].
  simpl. rewrite Hc. simpl.
  apply (lang_star_ind r (fun s => forallb f s = true));
    [reflexivity | | exact H2].
  intros x y Hx Hy. apply Hr in Hx as (c' & -> & Hc').
  simpl. rewrite Hc'. exact Hy.
Qed.

Lemma lang_hex_class x :
  lang (Alt (Rng "a" "f") (Rng "0" "9")) x ->
  exists c, x = [c] /\ is_hex c = true.
Proof.
  intros H. unfold is_hex.
  apply lang_alt_inv in H as [H | H];
    apply lang_rng_inv in H as (c & -> & Hc); exists c; rewrite Hc;
    split; auto using orb_true_r.
Qed.

Lemma lang_hex_run h :
  h <> [] -> forallb is_hex h = true ->
  lang (plus (Alt (Rng "a" "f") (Rng "0" "9"))) h.
Proof.
  assert (C : forall c, is_hex c = true ->
                        lang (Alt (Rng "a" "f") (Rng "0" "9")) [c]).
  { intros c Hc. unfold is_hex in Hc. apply orb_true_iff in Hc as [Hc | Hc];
      [apply LAltL | apply LAltR]; constructor; exact Hc. }
  assert (S : forall t, forallb is_hex t = true ->
                        lang (Star (Alt (Rng "a" "f") (Rng "0" "9"))) t).
  { induction t as [|c t IH]; simpl; intros H; [constructor|].
    apply andb_true_iff in H as [Hc H].
    apply (LStarS _ [c] t); auto. }
  intros Hne H. destruct h as [|c h]; [congruence|]. simpl in H.
  apply andb_true_iff in H as [Hc H]. apply (LCat _ _ [c] h); auto.
Qed.

(** What the pattern of [Release] matches as a whole: "-g" and a
    non-empty run of hash digits. *)
Lemma hash_suffix_lang s :
  lang hash_suffix s <->
  exists h, s = "-"%char :: "g"%char :: h /\ h <> []
            /\ forallb is_hex h = true.
Proof.
  unfold hash_suffix. split.
  - intros H. apply lang_cat_inv in H as (x & s1 & -> & Hx & H).
    apply lang_cat_inv in H as (y & h & -> & Hy & H).
    apply lang_chr_inv in Hx as ->. apply lang_chr_inv in Hy as ->.
    apply (lang_plus_class _ is_hex lang_hex_class) in H as [Hne Hh].
    exists h. auto.
  - intros (h & -> & Hne & Hh).
    apply (LCat _ _ ["-"%char] ("g"%char :: h)); [constructor|].
    apply (LCat _ _ ["g"%char] h); [constructor|].
    apply lang_hex_run; assumption.
Qed.

(** The pattern matches the marker and the hash that end a text, and no
    longer suffix of that text. *)
Lemma hash_suffix_leftmost (x h : bytes) :
  h <> [] -> forallb is_hex h = true ->
  ReplaceAllString_end hash_suffix (x ++ B "-g" ++ h) [] = x.
Proof.
  intros Hne Hh. induction x as [|c x IH].
  - change ([] ++ B "-g" ++ h) with ("-"%char :: "g"%char :: h).
    cbn [ReplaceAllString_end].
    replace (matches hash_suffix ("-"%char :: "g"%char :: h)) with true;
      [reflexivity|].
    symmetry. apply matches_lang, hash_suffix_lang. eauto.
  - change ((c :: x) ++ B "-g" ++ h) with (c :: x ++ B "-g" ++ h).
    cbn [ReplaceAllString_end]. rewrite IH.
    replace (matches hash_suffix (c :: x ++ B "-g" ++ h)) with false;
      [reflexivity|].
    symmetry. apply not_matches_lang. intros H.
    apply hash_suffix_lang in H as (h' & E & _ & Hh').
    injection E as -> E. destruct x as [|d x]; [discriminate E|].
    injection E as -> E. subst h'.
    rewrite forallb_app in Hh'. apply andb_true_iff in Hh' as [_ Hh'].
    discriminate Hh'.
Qed.

(** It matches nothing in a text that a line feed ends. *)
Lemma hash_suffix_newline (y : bytes) :
  ReplaceAllString_end hash_suffix (y ++ newline) [] = y ++ newline.
Proof.
  assert (N : forall t, matches hash_suffix (t ++ newline) = false).
  { intros t. apply not_matches_lang. intros H.
    apply hash_suffix_lang in H as (h & E & _ & Hh).
    assert (A : forallb (fun c => is_hex c || Ascii.eqb c "-"
                                  || Ascii.eqb c "g") (t ++ newline) = true).
    { rewrite E. simpl. clear E. induction h as [|c h IH]; [reflexivity|].
      simpl in *. apply andb_true_iff in Hh as [Hc Hh]. rewrite Hc. simpl.
      auto. }
    rewrite forallb_app in A. apply andb_true_iff in A as [_ A].
    discriminate A. }
  induction y as [|c y IH].
  - reflexivity.
  - change ((c :: y) ++ newline) with (c :: y ++ newline).
    cbn [ReplaceAllString_end]. rewrite IH.
    change (c :: y ++ newline) with ((c :: y) ++ newline). rewrite N.
    reflexivity.
Qed.

Lemma split_go_cons (sep s : bytes) :
  exists x xs, split_go sep 0 s = x :: xs.
Proof.
  destruct s as [|d s]; simpl; [eauto|].
  destruct (HasPrefix (d :: s) sep); [eauto|].
  destruct (split_go sep 0 s); simpl; eauto.
Qed.

Lemma Split_none (c : ascii) (y : bytes) :
  no_byte c y = true -> Split y [c] = [y].
Proof.
  unfold Split. induction y as [|d y IH]; intros H; simpl in *.
  - reflexivity.
  - apply andb_true_iff in H as [Hd H]. apply negb_true_iff in Hd.
    rewrite Hd. simpl. rewrite IH by assumption. reflexivity.
Qed.

(** The last piece of a split: what follows the last separator. *)
Lemma Split_last (c : ascii) (x y : bytes) :
  no_byte c y = true -> Split (x ++ c :: y) [c] = Split x [c] ++ [y].
Proof.
  intros Hy. pose proof (Split_none c y Hy) as Ey. unfold Split in *.
  induction x as [|d x IH]; simpl.
  - rewrite Ascii.eqb_refl. simpl. rewrite Ey. reflexivity.
  - destruct (Ascii.eqb d c); simpl.
    + rewrite IH. reflexivity.
    + rewrite IH. destruct (split_go_cons [c] x) as (p & ps & ->).
      reflexivity.
Qed.

Lemma nth_second_last (l : list bytes) (a b : bytes) :
  nth (length ((l ++ [a]) ++ [b]) - 2) ((l ++ [a]) ++ [b]) [] = a.
Proof.
  rewrite <- app_assoc. simpl. rewrite length_app. simpl.
  replace (length l + 2 - 2)%nat with (length l) by lia.
  rewrite app_nth2 by lia. rewrite Nat.sub_diag. reflexivity.
Qed.

(** [Release] on the text of a describe query that a line feed ends:
    tag, distance, marker and hash. *)
Lemma Release_distance (w : world) (tag n h : bytes) :
  git w describe_release
  = Some (tag ++ B "-" ++ n ++ B "-g" ++ h ++ newline) ->
  no_byte "-" n = true -> no_byte "-" h = true ->
  Release 1 w = n.
Proof.
  intros Hg Hn Hh. unfold Release. cbn [Z.eqb Pos.eqb].
  rewrite Hg.
  replace (tag ++ B "-" ++ n ++ B "-g" ++ h ++ newline)
    with ((tag ++ B "-" ++ n ++ B "-g" ++ h) ++ newline)
    by (rewrite <- !app_assoc; reflexivity).
  rewrite hash_suffix_newline.
  replace ((tag ++ B "-" ++ n ++ B "-g" ++ h) ++ newline)
    with ((tag ++ "-"%char :: n) ++ "-"%char :: ("g"%char :: h ++ newline))
    by (rewrite <- !app_assoc; reflexivity).
  change (B "-") with ["-"%char].
  rewrite Split_last.
  - rewrite Split_last by assumption.
    rewrite nth_second_last.
    rewrite !length_app. simpl.
    destruct (split_go_cons ["-"%char] tag) as (p & ps & E).
    unfold Split. rewrite E. simpl.
    replace (length ps + 1 + 1)%nat with (S (S (length ps))) by lia.
    reflexivity.
  - unfold no_byte in *. cbn [forallb]. rewrite forallb_app, Hh.
    reflexivity.
Qed.

(** [Release] on a text without "-" that a line feed ends: a tag alone. *)
Lemma Release_no_distance (w : world) (tag : bytes) :
  git w describe_release = Some (tag ++ newline) ->
  no_byte "-" tag = true ->
  Release 1 w = B "0".
Proof.
  intros Hg Ht. unfold Release. cbn [Z.eqb Pos.eqb].
  rewrite Hg, hash_suffix_newline.
  change (B "-") with ["-"%char]. rewrite Split_none; [reflexivity|].
  rewrite no_byte_app, Ht. reflexivity.
Qed.

End ReleaseNumber.

Section ReleaseClaim.

Import Describe.

(** C4, as the program has it.  Without [-r] ([RELEASE] is not 1)
    [Release] returns "1".  With [-r] it replaces by nothing a match of
    the pattern "-g[a-f0-9]+" at the very end of the text printed by the
    describe query, splits the result at each "-" and returns the
    second-to-last piece when there are at least two, "0" otherwise.  The
    pattern removes the marker and the hash when they end the text, and
    nothing when a line feed ends it, as in what git prints: there a text
    made of a tag, "-", the distance, "-g", the hash and the line feed
    gives the distance, so that v1.2.3-5-gabc123 with its line feed gives
    5; and a tag without "-" and its line feed give 0, as v1.2.3 does with
    or without line feed. *)
Theorem Release_number :
  (forall (r : Z) (w : world), r <> 1%Z -> Release r w = B "1")
  /\ (forall (w : world) (output : bytes),
        git w describe_release = Some output ->
        Release 1 w
        = let parts :=
            Split (ReplaceAllString_end hash_suffix output []) (B "-") in
          if (2 <=? length parts)%nat then nth (length parts - 2) parts []
          else B "0")
  /\ (forall x h : bytes,
        h <> [] -> forallb is_hex h = true ->
        ReplaceAllString_end hash_suffix (x ++ B "-g" ++ h) [] = x)
  /\ (forall y : bytes,
        ReplaceAllString_end hash_suffix (y ++ newline) [] = y ++ newline)
  /\ (forall (w : world) (tag n h : bytes),
        git w describe_release
        = Some (tag ++ B "-" ++ n ++ B "-g" ++ h ++ newline) ->
        no_byte "-" n = true -> no_byte "-" h = true ->
        Release 1 w = n)
  /\ (forall (w : world) (tag : bytes),
        git w describe_release = Some (tag ++ newline) ->
        no_byte "-" tag = true ->
        Release 1 w = B "0")
  /\ Release 1 (printing (B "v1.2.3-5-gabc123" ++ newline)) = B "5"
  /\ Release 1 (printing (B "v1.2.3" ++ newline)) = B "0"
  /\ Release 1 (printing (B "v1.2.3")) = B "0".
Proof.
  split; [| split; [| split; [| split; [| split; [| split]]]]].
  - intros r w Hr. unfold Release.
    destruct (Z.eqb_spec r 1); [congruence | reflexivity].
  - intros w output Hg. unfold Release. cbn [Z.eqb Pos.eqb].
    rewrite Hg. reflexivity.
  - exact hash_suffix_leftmost.
  - exact hash_suffix_newline.
  - exact Release_distance.
  - exact Release_no_distance.
  - repeat split; vm_compute; reflexivity.
Qed.

(** The theorem at work: a run without [-r], and the text that git
    prints five commits after the tag v1.2.3. *)
Lemma Release_number_witness :
  Release 0 (printing (B "v1.2.3-5-gabc123" ++ newline)) = B "1"
  /\ Release 1 (printing (B "v1.2.3-5-gabc123" ++ newline)) = B "5"
  /\ ReplaceAllString_end hash_suffix (B "v1.2.3-5" ++ B "-g" ++ B "abc123") []
     = B "v1.2.3-5".
Proof.
  destruct Release_number as (H1 & _ & H3 & _ & H5 & _).
  split; [| split].
  - apply H1. discriminate.
  - apply (H5 _ (B "v1.2.3") (B "5") (B "abc123")); reflexivity.
  - apply H3; [discriminate | reflexivity].
Defined.

(** C4, as it is worded, fails on the text v1.2.3-5-gabc123 itself: the
    marker and the hash are removed, two pieces are left and the
    second-to-last one is the tag, not the distance. *)
Lemma Release_counterexample :
  Release 1 (printing (B "v1.2.3-5-gabc123")) = B "v1.2.3"
  /\ Release 1 (printing (B "v1.2.3-5-gabc123")) <> B "5".
Proof. split; vm_compute; [reflexivity | discriminate]. Qed.

End ReleaseClaim.

(** ** The project name, the version and the dispatch of [main] *)

Section DescribeClaims.

Import Describe.

(** C7.  A non-empty [PROJECT_NAME] is what [Project] and [Module]
    return, whatever the git subprocess prints or fails to print. *)
Theorem PROJECT_NAME_override :
  forall (w : world) (name : bytes),
    name <> [] -> Getenv w (B "PROJECT_NAME") = name ->
    Project w = name /\ Module w = name.
Proof.
  intros w name Hne He. unfold Project, Module. rewrite He.
  destruct (bytes_eqb name []) eqn:E.
  - apply bytes_eqb_eq in E. congruence.
  - split; reflexivity.
Qed.

(** The theorem at work: [PROJECT_NAME=foo], over a remote that names
    another project. *)
Lemma PROJECT_NAME_override_witness :
  let w := World [(B "PATH", B "/usr/bin"); (B "PROJECT_NAME", B "foo")]
                 (fun _ => Some (listing (B "origin")
                                   (B "https://github.com/org/repo.git"))) in
  Project w = B "foo" /\ Module w = B "foo".
Proof.
  intros w. apply PROJECT_NAME_override; [discriminate | reflexivity].
Defined.

(** C2: [Project] cuts the listing at each letter n, where [Module] cuts
    it at each line feed, and takes the first field of the piece, where
    [Module] takes the second.  On the listing of a remote origin whose
    URL is https://github.com/org/engine.git, and on that of a remote
    upstream at https://github.com/org/repo.git, it finds no URL and
    returns the empty string, not org-engine and org-repo; on the same
    listings [Module] returns engine and repo.  On a remote origin whose
    URL has no n the cut after "origi" leaves the URL first in its piece,
    and the result is the expected one. *)
Theorem Project_cut_at_n :
  Project (printing (listing (B "origin")
                       (B "https://github.com/org/engine.git"))) = []
  /\ Module (printing (listing (B "origin")
                         (B "https://github.com/org/engine.git")))
     = B "engine"
  /\ Project (printing (listing (B "upstream")
                          (B "https://github.com/org/repo.git"))) = []
  /\ Module (printing (listing (B "upstream")
                         (B "https://github.com/org/repo.git")))
     = B "repo"
  /\ Project (printing (listing (B "origin")
                          (B "https://github.com/org/repo.git")))
     = B "org-repo".
Proof. repeat split; vm_compute; reflexivity. Qed.

(** C3: [versionAbbrev] cuts the text of the describe query at each
    letter n, not at each line feed.  Five commits after the tag
    v1.2.3.next.1 the text is one line that begins with v; the loop run on
    that line gives v1.2.3.next.1~5ab12, but [versionAbbrev] keeps the
    piece before the first n only and returns "1.2.3.".  On a text of two
    lines it returns both, the line feed between them, where the greatest
    is 2.0.0. *)
Theorem versionAbbrev_cut_at_n :
  let out := B "v1.2.3.next.1-5-gab12" ++ newline in
  versionAbbrev (printing out) = B "1.2.3."
  /\ Split (TrimSpace out) newline = [B "v1.2.3.next.1-5-gab12"]
  /\ Strings (abbrev_loop (Split (TrimSpace out) newline))
     = [B "v1.2.3.next.1~5ab12"]
  /\ versionAbbrev (printing (B "v1.0.0" ++ newline ++ B "v2.0.0" ++ newline))
     = B "1.0.0" ++ newline ++ B "v2.0.0".
Proof. repeat split; vm_compute; reflexivity. Qed.

(** After [flag.Parse], with neither [-h] nor [-V] set, [main] exits with
    status 1 when the strategy is none of tag, abbrev, rank or the command
    none of project, module, version, release, full: it has printed
    nothing when a command is given, and the line that says that no
    command was provided when none is. *)
Lemma main_rejects_unknown :
  forall (f : flags) (args : list bytes) (w : world),
    flags_off f ->
    known_strategy (strategy f) = false
    \/ known_command (nth 0 args []) = false ->
    exec (main f args w)
    = (match args with
       | [] => no_command ++ newline
       | _ :: _ => []
       end, 1%Z).
Proof.
  intros f args w [H1 H2] H. unfold main. rewrite H1, H2.
  rewrite !when_false_bind. destruct args as [|c rest]; [reflexivity|].
  cbn [length Nat.eqb nth] in *. rewrite when_false_bind.
  destruct H as [H | H].
  - unfold known_strategy in H.
    apply orb_false_iff in H as [H H3]. apply orb_false_iff in H as [H H'].
    rewrite H, H', H3. reflexivity.
  - unfold known_command in H.
    apply orb_false_iff in H as [H C5]. apply orb_false_iff in H as [H C4].
    apply orb_false_iff in H as [H C3]. apply orb_false_iff in H as [C1 C2].
    rewrite C1, C2, C3, C4, C5.
    destruct (bytes_eqb (strategy f) (B "tag")); [reflexivity|].
    destruct (bytes_eqb (strategy f) (B "abbrev")); [reflexivity|].
    destruct (bytes_eqb (strategy f) (B "rank")); reflexivity.
Qed.

End DescribeClaims.

(** * More of the two programs *)

(** ** The dispatch of the describe tool *)

Section Dispatch.

Import Describe.

Lemma Version_known (s : bytes) (w : world) :
  known_strategy s = true -> Version s w = ret (version_of s w).
Proof.
  unfold known_strategy, Version, version_of. intros H.
  destruct (bytes_eqb s (B "tag")); [reflexivity|].
  destruct (bytes_eqb s (B "abbrev")); [reflexivity|].
  destruct (bytes_eqb s (B "rank")); [reflexivity | discriminate H].
Qed.

Lemma strategy_known (s : bytes) :
  known_strategy s = true ->
  (if bytes_eqb s (B "tag") then ret (B "tag")
   else if bytes_eqb s (B "abbrev") then ret (B "abbrev")
   else if bytes_eqb s (B "rank") then ret (B "rank")
   else os_Exit 1) = ret s.
Proof.
  unfold known_strategy. intros H.
  destruct (bytes_eqb s (B "tag")) eqn:E1;
    [apply bytes_eqb_eq in E1; subst; reflexivity|].
  destruct (bytes_eqb s (B "abbrev")) eqn:E2;
    [apply bytes_eqb_eq in E2; subst; reflexivity|].
  destruct (bytes_eqb s (B "rank")) eqn:E3;
    [apply bytes_eqb_eq in E3; subst; reflexivity | discriminate H].
Qed.

Lemma exec_main_known :
  forall (f : flags) (command : bytes) (rest : list bytes) (w : world),
    flags_off f ->
    known_strategy (strategy f) = true ->
    known_command command = true ->
    exec (main f (command :: rest) w) = (answer f command w, 0%Z).
Proof.
  intros f command rest w [H1 H2] Hs Hc. unfold main. rewrite H1, H2.
  rewrite !when_false_bind. cbn [length Nat.eqb nth].
  rewrite ?when_false_bind, (strategy_known _ Hs).
  unfold answer, known_command in *. fold (release_of f).
  unfold bind at 1. unfold ret at 1.
  rewrite !(Version_known _ w Hs).
  destruct (bytes_eqb command (B "project")); [reflexivity|].
  destruct (bytes_eqb command (B "module")); [reflexivity|].
  destruct (bytes_eqb command (B "version")); [reflexivity|].
  destruct (bytes_eqb command (B "release")); [reflexivity|].
  destruct (bytes_eqb command (B "full")); [| discriminate Hc].
  unfold exec, bind, ret, Printf. simpl. reflexivity.
Qed.

(** X1.  Without [-h] and [-V], under a recognized strategy and for a
    recognized command, the describe tool exits with status 0 whatever git
    prints or fails to print: the branch of [Version] that exits with
    status 1 is never reached from [main].  It prints the result and a line
    feed for project, module, version and release, and for full the three
    results joined by "-" without a line feed; the arguments after the
    command are not read. *)
Theorem main_known_command :
  forall (f : flags) (command : bytes) (rest : list bytes) (w : world),
    flags_off f ->
    known_strategy (strategy f) = true ->
    known_command command = true ->
    exec (main f (command :: rest) w) = (answer f command w, 0%Z).
Proof.
  intros f command rest w Hf Hs Hc.
  apply exec_main_known; assumption.
Qed.

(** The theorem at work: the full name of the sample repository, with
    [-r]. *)
Lemma main_known_command_witness :
  exec (main (Flags false false false false true (B "tag"))
          [B "full"; B "ignored"] sample)
  = (B "Deppkepa-semver-git-1.2.3~rc.1-5", 0%Z).
Proof.
  rewrite main_known_command; [| split; reflexivity | reflexivity..].
  vm_compute. reflexivity.
Defined.

End Dispatch.

(** ** When git fails, and when the listing has nothing to read *)

Section NothingToRead.

Import Describe.

(** X2.  When every git query fails and [PROJECT_NAME] is not set, the
    five extractors return the empty string, [Release] too under [-r]
    (and "1" without it), and the describe tool still exits with status 0:
    the command full prints "--" with [-r] and "--1" without. *)
Theorem git_failure_is_silent :
  forall w : world,
    (forall args, git w args = None) ->
    Getenv w (B "PROJECT_NAME") = [] ->
    Project w = [] /\ Module w = []
    /\ versionTag w = [] /\ versionAbbrev w = [] /\ versionRank w = []
    /\ Release 1 w = [] /\ Release 0 w = B "1"
    /\ (forall f rest,
          flags_off f -> known_strategy (strategy f) = true ->
          exec (main f (B "full" :: rest) w)
          = (if releaseFlag f then B "--" else B "--1", 0%Z)).
Proof.
  intros w Hg He.
  assert (P : Project w = []) by (unfold Project; rewrite He, Hg; reflexivity).
  assert (M : Module w = []) by (unfold Module; rewrite He, Hg; reflexivity).
  assert (T : versionTag w = []) by (unfold versionTag; rewrite Hg; reflexivity).
  assert (A : versionAbbrev w = [])
    by (unfold versionAbbrev; rewrite Hg; reflexivity).
  assert (R : versionRank w = [])
    by (unfold versionRank; rewrite Hg; reflexivity).
  assert (R1 : Release 1 w = [])
    by (unfold Release; cbn [Z.eqb Pos.eqb]; rewrite Hg; reflexivity).
  repeat split; try assumption.
  intros f rest Hf Hs. rewrite exec_main_known by (assumption || reflexivity).
  f_equal. unfold answer. cbn [bytes_eqb]. 
  replace (bytes_eqb (B "full") (B "project")) with false by reflexivity.
  replace (bytes_eqb (B "full") (B "module")) with false by reflexivity.
  replace (bytes_eqb (B "full") (B "version")) with false by reflexivity.
  replace (bytes_eqb (B "full") (B "release")) with false by reflexivity.
  assert (V : version_of (strategy f) w = []).
  { unfold version_of.
    destruct (bytes_eqb (strategy f) (B "tag")); [assumption|].
    destruct (bytes_eqb (strategy f) (B "abbrev")); assumption. }
  rewrite P, V. unfold release_of, Release.
  destruct (releaseFlag f); cbn [Z.eqb Pos.eqb]; [rewrite Hg|]; reflexivity.
Qed.

(** The theorem at work, where git is not there at all. *)
Lemma git_failure_is_silent_witness :
  Release 1 failing = []
  /\ exec (main (Flags false false false false false (B "rank"))
             [B "full"] failing) = (B "--1", 0%Z).
Proof.
  destruct (git_failure_is_silent failing (fun _ => eq_refl) eq_refl)
    as (_ & _ & _ & _ & _ & H6 & _ & H8).
  split; [exact H6|].
  apply (H8 (Flags false false false false false (B "rank")) []);
    [split; reflexivity | reflexivity].
Defined.

Lemma HasPrefix_app_l (t b sub : bytes) :
  HasPrefix t sub = true -> HasPrefix (t ++ b) sub = true.
Proof.
  revert t. induction sub as [|q sub IH]; intros t H; [reflexivity|].
  destruct t as [|c t]; [discriminate H|]. simpl in *.
  apply andb_true_iff in H as [H1 H2]. rewrite H1. simpl. auto.
Qed.

Lemma Contains_app_l (a b sub : bytes) :
  Contains a sub = true -> Contains (a ++ b) sub = true.
Proof.
  induction a as [|c a IH]; intros H.
  - simpl in H. destruct sub; [|discriminate H].
    destruct b; reflexivity.
  - change ((c :: a) ++ b) with (c :: a ++ b). cbn [Contains] in *.
    apply orb_true_iff in H as [H | H]; apply orb_true_iff.
    + left. apply (HasPrefix_app_l (c :: a) b sub H).
    + right. auto.
Qed.

(** A text that lacks a word lacks it in each of its parts. *)
Lemma Contains_part (a p b sub : bytes) :
  Contains (a ++ p ++ b) sub = false -> Contains p sub = false.
Proof.
  intros H. destruct (Contains p sub) eqn:E; [|reflexivity].
  rewrite (Contains_app_r a (p ++ b) sub (Contains_app_l p b sub E)) in H.
  discriminate H.
Qed.

(** The pieces of a split are parts of the text. *)
Lemma Split_parts (c : ascii) (s : bytes) :
  exists x xs,
    Split s [c] = x :: xs /\ (exists b, s = x ++ b)
    /\ Forall (fun p => exists a b, s = a ++ p ++ b) xs.
Proof.
  unfold Split. induction s as [|d s (x & xs & E & (b & Hx) & Hxs)].
  - exists [], []. repeat split; [exists []; reflexivity | constructor].
  - cbn [split_go HasPrefix]. destruct (Ascii.eqb_spec d c) as [-> | Hne].
    + cbn [andb length Nat.sub]. rewrite E. exists [], (x :: xs).
      repeat split; [exists (c :: s); reflexivity|].
      constructor.
      * exists [c], b. rewrite Hx at 1. reflexivity.
      * revert Hxs. apply Forall_impl. intros p (a & b' & Hp).
        exists (c :: a), b'. rewrite Hp at 1. reflexivity.
    + cbn [andb]. rewrite E. cbn [push]. exists (d :: x), xs.
      repeat split; [exists b; rewrite Hx at 1; reflexivity|].
      revert Hxs. apply Forall_impl. intros p (a & b' & Hp).
      exists (d :: a), b'. rewrite Hp at 1. reflexivity.
Qed.

Lemma Split_lacks (c : ascii) (s sub : bytes) :
  Contains s sub = false ->
  Forall (fun p => Contains p sub = false) (Split s [c]).
Proof.
  intros H. destruct (Split_parts c s) as (x & xs & -> & (b & Hx) & Hxs).
  constructor.
  - apply (Contains_part [] x b). simpl. rewrite <- Hx. exact H.
  - revert Hxs. apply Forall_impl. intros p (a & b' & Hp).
    apply (Contains_part a p b'). rewrite <- Hp. exact H.
Qed.

Lemma Project_loop_skip (ls more : list bytes) :
  Forall (fun l => Contains l (B "fetch") = false) ls ->
  Project_loop (ls ++ more) = Project_loop more.
Proof.
  intros H. induction H as [|l ls Hl _ IH]; [reflexivity|].
  cbn [app Project_loop]. rewrite Hl. exact IH.
Qed.

(** X3.  When the word "fetch" is nowhere in the listing (no remote is
    configured), and [PROJECT_NAME] is not set, [Project] and [Module]
    return the empty string. *)
Theorem no_fetch_no_name :
  forall (w : world) (output : bytes),
    Getenv w (B "PROJECT_NAME") = [] ->
    git w git_remote = Some output ->
    Contains output (B "fetch") = false ->
    Project w = [] /\ Module w = [].
Proof.
  intros w output He Hg Hc. unfold Project, Module. rewrite He, Hg.
  cbn [bytes_eqb negb].
  replace (negb (bytes_eqb [] [])) with false by reflexivity.
  split.
  - rewrite <- (app_nil_r (Split output (B "n"))).
    rewrite Project_loop_skip; [reflexivity|].
    apply (Split_lacks "n"). exact Hc.
  - rewrite <- (app_nil_r (Split output newline)).
    rewrite Module_loop_skip; [reflexivity|].
    apply (Split_lacks "010"). exact Hc.
Qed.

(** The theorem at work: a repository without remote. *)
Lemma no_fetch_no_name_witness :
  Project (printing []) = [] /\ Module (printing []) = [].
Proof.
  apply (no_fetch_no_name (printing []) []); reflexivity.
Defined.

Lemma SplitN_none (c : ascii) (s : bytes) :
  no_byte c s = true -> SplitN s [c] 2 = [s].
Proof.
  unfold SplitN. cbn [Z.eqb Z.ltb Z.compare Z.to_nat Pos.to_nat].
  change (Pos.iter_op Init.Nat.add 2 1%nat) with 2%nat.
  induction s as [|d s IH]; intros H; [reflexivity|].
  cbn [no_byte forallb] in H. apply andb_true_iff in H as [Hd H].
  apply negb_true_iff in Hd. cbn [splitn_go HasPrefix]. rewrite Hd.
  cbn [andb]. rewrite (IH H). reflexivity.
Qed.

(** On the fetch line of a remote whose URL has no colon the loop of
    [Module] goes on to the next line. *)
Lemma Module_loop_local (name url : bytes) (more : list bytes) :
  token name -> token url -> no_byte ":" url = true ->
  Module_loop (fetch_line name url :: more) = Module_loop more.
Proof.
  intros Hn Hu Hc. cbn [Module_loop].
  rewrite Contains_fetch_line, Fields_fetch_line by assumption.
  cbn [length Nat.ltb Nat.leb nth].
  change (B ":") with [":"%char]. rewrite (SplitN_none ":" url Hc).
  reflexivity.
Qed.

Lemma push_line_no_newline (name url : bytes) :
  token name -> token url ->
  no_byte "010" (name ++ tab ++ url ++ B " (push)") = true.
Proof.
  intros [_ Hn] [_ Hu]. rewrite !no_byte_app.
  rewrite (word_no_newline name), (word_no_newline url) by assumption.
  reflexivity.
Qed.

Lemma Fields_push_line (name url : bytes) :
  token name -> token url ->
  Fields (name ++ tab ++ url ++ B " (push)") = [name; url; B "(push)"].
Proof.
  intros [Hn Pn] [Hu Pu]. unfold Fields, tab.
  rewrite fields_go_word by (assumption || reflexivity). simpl.
  rewrite fields_go_word by (assumption || reflexivity). simpl.
  destruct name; [congruence|]. destruct url; [congruence|]. reflexivity.
Qed.

(** The push line of such a remote is passed over too, with or without
    the word "fetch" in the name or in the URL. *)
Lemma Module_loop_local_push (name url : bytes) (more : list bytes) :
  token name -> token url -> no_byte ":" url = true ->
  Module_loop ((name ++ tab ++ url ++ B " (push)") :: more)
  = Module_loop more.
Proof.
  intros Hn Hu Hc. cbn [Module_loop].
  destruct (Contains (name ++ tab ++ url ++ B " (push)") (B "fetch"));
    [| reflexivity].
  rewrite Fields_push_line by assumption.
  cbn [length Nat.ltb Nat.leb nth].
  change (B ":") with [":"%char]. rewrite (SplitN_none ":" url Hc).
  reflexivity.
Qed.

Lemma Module_loop_locals (remotes : list (bytes * bytes)) (rest : bytes) :
  Forall local_remote remotes ->
  Module_loop (Split (listing_of remotes ++ rest) newline)
  = Module_loop (Split rest newline).
Proof.
  intros H. induction H as [|[name url] rs (Hn & Hu & Hc) _ IH];
    [reflexivity|].
  unfold listing_of in *. cbn [map concat fst snd] in *. unfold listing at 1.
  rewrite <- !app_assoc.
  rewrite Split_line by (apply fetch_line_no_newline; assumption).
  rewrite Module_loop_local by assumption.
  replace (name ++ tab ++ url ++ B " (push)" ++ newline
           ++ concat (map (fun r => listing (fst r) (snd r)) rs) ++ rest)
    with ((name ++ tab ++ url ++ B " (push)") ++ newline
          ++ concat (map (fun r => listing (fst r) (snd r)) rs) ++ rest)
    by (rewrite <- !app_assoc; reflexivity).
  rewrite Split_line by (apply push_line_no_newline; assumption).
  rewrite Module_loop_local_push by assumption. exact IH.
Qed.

(** What stands before a tail of the listing weighs the same on the two
    sides when the loop agrees on the tails. *)
Lemma Module_loop_app (before m1 m2 : list bytes) :
  Module_loop m1 = Module_loop m2 ->
  Module_loop (before ++ m1) = Module_loop (before ++ m2).
Proof.
  intros H. induction before as [|l before IH]; [exact H|].
  cbn [app Module_loop]. rewrite IH. reflexivity.
Qed.

(** X4.  [Module] reads nothing from a remote whose URL has no colon,
    such as a path of the file system: its two lines, fetch and push, are
    passed over, wherever the remote stands in the listing.  With
    [PROJECT_NAME] not set, on a listing that holds such remotes, after
    any lines and before any text, [Module] returns what it returns on the
    listing without them; and the empty string when the listing holds
    nothing else. *)
Theorem Module_local_remotes :
  forall (w : world) (before : list bytes) (remotes : list (bytes * bytes))
         (rest : bytes),
    Getenv w (B "PROJECT_NAME") = [] ->
    Forall (fun l => no_byte "010" l = true) before ->
    git w git_remote = Some (unlines before ++ listing_of remotes ++ rest) ->
    Forall local_remote remotes ->
    Module w = Module (printing (unlines before ++ rest))
    /\ (before = [] -> rest = [] -> Module w = []).
Proof.
  intros w before remotes rest He Hb Hg H.
  assert (E : Module w = Module (printing (unlines before ++ rest))).
  { unfold Module. rewrite He, Hg.
    replace (negb (bytes_eqb [] [])) with false by reflexivity.
    cbn [Getenv printing environ git].
    replace (negb (bytes_eqb (Getenv (printing (unlines before ++ rest))
                                (B "PROJECT_NAME")) []))
      with false by reflexivity.
    rewrite !Split_unlines by assumption.
    apply Module_loop_app, Module_loop_locals, H. }
  split; [exact E|]. intros -> ->. rewrite E. reflexivity.
Qed.

(** The theorem at work: a clone of a directory alone; a remote fetcher
    on a directory followed by a remote over SSH; a remote on a directory
    after a line that names no remote and before a remote over SSH. *)
Lemma Module_local_remotes_witness :
  Module (printing (listing_of [(B "origin", B "/srv/git/semver-git.git")]))
  = []
  /\ Module
       (printing
          (listing_of [(B "fetcher", B "/srv/git/fetchmail.git")]
           ++ listing (B "github")
                (B "git@github.com:Deppkepa/semver-git.git")))
     = B "semver-git"
  /\ Module
       (printing
          (unlines [B "remotes:"]
           ++ listing_of [(B "backup", B "/mnt/backup/semver-git.git")]
           ++ listing (B "github")
                (B "git@github.com:Deppkepa/semver-git.git")))
     = B "semver-git".
Proof.
  assert (L1 : Forall local_remote [(B "origin", B "/srv/git/semver-git.git")]).
  { constructor; [| constructor].
    repeat split; try discriminate; vm_compute; reflexivity. }
  assert (L2 : Forall local_remote [(B "fetcher", B "/srv/git/fetchmail.git")]).
  { constructor; [| constructor].
    repeat split; try discriminate; vm_compute; reflexivity. }
  assert (L3 : Forall local_remote
                 [(B "backup", B "/mnt/backup/semver-git.git")]).
  { constructor; [| constructor].
    repeat split; try discriminate; vm_compute; reflexivity. }
  assert (B3 : Forall (fun l => no_byte "010" l = true) [B "remotes:"]).
  { constructor; [reflexivity | constructor]. }
  split; [| split].
  - destruct (Module_local_remotes
                (printing (listing_of
                             [(B "origin", B "/srv/git/semver-git.git")]))
                [] [(B "origin", B "/srv/git/semver-git.git")] []
                eq_refl (Forall_nil _)
                (f_equal Some (eq_sym (app_nil_r _))) L1) as [_ H].
    apply H; reflexivity.
  - destruct (Module_local_remotes
                (printing
                   (listing_of [(B "fetcher", B "/srv/git/fetchmail.git")]
                    ++ listing (B "github")
                         (B "git@github.com:Deppkepa/semver-git.git")))
                [] _ _ eq_refl (Forall_nil _) eq_refl L2) as [H _].
    rewrite H. vm_compute. reflexivity.
  - destruct (Module_local_remotes
                (printing
                   (unlines [B "remotes:"]
                    ++ listing_of [(B "backup", B "/mnt/backup/semver-git.git")]
                    ++ listing (B "github")
                         (B "git@github.com:Deppkepa/semver-git.git")))
                [B "remotes:"] _ _ eq_refl B3 eq_refl L3) as [H _].
    rewrite H. vm_compute. reflexivity.
Defined.

End NothingToRead.

(** ** What the results are made of *)

Section Shapes.

Import Describe.

Lemma Split_pieces_lack_sep (c : ascii) (s : bytes) :
  Forall (fun p => no_byte c p = true) (Split s [c]).
Proof.
  unfold Split. induction s as [|d s IH]; [repeat constructor|].
  cbn [split_go HasPrefix]. destruct (Ascii.eqb d c) eqn:E; cbn [andb].
  - constructor; [reflexivity | exact IH].
  - destruct (split_go_cons [c] s) as (x & xs & Ex). rewrite Ex in *.
    cbn [push]. inversion IH as [|? ? Hx Hxs]; subst.
    constructor; [| exact Hxs].
    cbn [no_byte forallb]. rewrite E. exact Hx.
Qed.

Lemma Forall_nth_default {A} (P : A -> Prop) (l : list A) (n : nat) (d : A) :
  Forall P l -> P d -> P (nth n l d).
Proof.
  intros Hl Hd. destruct (nth_in_or_default n l d) as [H | ->]; [|exact Hd].
  rewrite Forall_forall in Hl. auto.
Qed.

(** X5.  No "-" is ever in the release number that [Release] returns,
    whatever the flag and whatever git prints: the last "-" of the full
    name written by the command full is the one before the release. *)
Theorem Release_has_no_dash :
  forall (r : Z) (w : world), no_byte "-" (Release r w) = true.
Proof.
  intros r w. unfold Release. destruct (r =? 1)%Z; [| reflexivity].
  destruct (git w describe_release) as [output|]; [| reflexivity].
  cbv zeta.
  destruct (1 <? length (Split (ReplaceAllString_end hash_suffix output [])
                           (B "-")))%nat; [| reflexivity].
  apply (Forall_nth_default (fun p => no_byte "-" p = true));
    [apply (Split_pieces_lack_sep "-") | reflexivity].
Qed.

(** X6.  With [-r], when HEAD is on a tag that has one "-" in it, such
    as v1.2.3-beta, so that git prints the tag alone, [Release] returns
    the text before that "-", not a number. *)
Theorem Release_on_dashed_tag :
  forall (w : world) (a b : bytes),
    git w describe_release = Some (a ++ B "-" ++ b ++ newline) ->
    no_byte "-" a = true -> no_byte "-" b = true ->
    Release 1 w = a.
Proof.
  intros w a b Hg Ha Hb. unfold Release. cbn [Z.eqb Pos.eqb]. rewrite Hg.
  replace (a ++ B "-" ++ b ++ newline) with ((a ++ B "-" ++ b) ++ newline)
    by (rewrite <- !app_assoc; reflexivity).
  rewrite hash_suffix_newline.
  replace ((a ++ B "-" ++ b) ++ newline) with (a ++ "-"%char :: (b ++ newline))
    by (rewrite <- !app_assoc; reflexivity).
  change (B "-") with ["-"%char].
  rewrite Split_last by (rewrite no_byte_app, Hb; reflexivity).
  rewrite Split_none by assumption. reflexivity.
Qed.

(** The theorem at work: HEAD on the tag v1.2.3-beta. *)
Lemma Release_on_dashed_tag_witness :
  Release 1 (printing (B "v1.2.3-beta" ++ newline)) = B "v1.2.3".
Proof.
  apply (Release_on_dashed_tag _ (B "v1.2.3") (B "beta")); reflexivity.
Defined.

Lemma replace_all_lacks (c d : ascii) (s : bytes) :
  Ascii.eqb d c = false -> no_byte c (ReplaceAll s [c] [d]) = true.
Proof.
  intros Hd. unfold ReplaceAll, Replace. cbn [Z.ltb Z.compare].
  induction s as [|x s IH]; [reflexivity|].
  cbn [replace_go HasPrefix option_map length Nat.sub].
  destruct (Ascii.eqb x c) eqn:E; cbn [andb app no_byte forallb].
  - rewrite Hd. exact IH.
  - rewrite E. exact IH.
Qed.

Lemma Project_loop_no_slash (lines : list bytes) :
  no_byte "/" (Project_loop lines) = true.
Proof.
  induction lines as [|line rest IH]; [reflexivity|].
  cbn [Project_loop].
  repeat match goal with
         | |- context [if ?b then _ else _] => destruct b
         end; try exact IH;
    apply (replace_all_lacks "/" "-"); reflexivity.
Qed.

Lemma take_while_all (f : ascii -> bool) (s : bytes) :
  forallb f (take_while f s) = true.
Proof.
  induction s as [|c s IH]; [reflexivity|]. simpl.
  destruct (f c) eqn:E; [simpl; rewrite E; exact IH | reflexivity].
Qed.

(** [filepath.Base] never returns the empty string, and returns a name
    without slash or the slash alone. *)
Lemma Base_shape (path : bytes) :
  Base path <> [] /\ (no_byte "/" (Base path) = true \/ Base path = B "/").
Proof.
  unfold Base. destruct path as [|c p]; [split; [discriminate | left; reflexivity]|].
  set (l := rev (take_while (fun c0 => negb (is_sep c0))
                   (rev (rev (drop_while is_sep (rev (c :: p))))))).
  assert (H : no_byte "/" l = true).
  { unfold l, no_byte. rewrite forallb_rev. apply take_while_all. }
  destruct l; [split; [discriminate | right; reflexivity]|].
  split; [discriminate | left; exact H].
Qed.

Lemma Module_loop_shape (lines : list bytes) :
  no_byte "/" (Module_loop lines) = true \/ Module_loop lines = B "/".
Proof.
  induction lines as [|line rest IH]; [left; reflexivity|].
  cbn [Module_loop].
  repeat match goal with
         | |- context [if ?b then _ else _] => destruct b
         end; try exact IH.
  apply Base_shape.
Qed.

(** X7.  When [PROJECT_NAME] is not set, no slash is in the name that
    [Project] returns, and none in the name that [Module] returns unless
    that name is the slash alone. *)
Theorem names_have_no_slash :
  forall w : world,
    Getenv w (B "PROJECT_NAME") = [] ->
    no_byte "/" (Project w) = true
    /\ (no_byte "/" (Module w) = true \/ Module w = B "/").
Proof.
  intros w He. unfold Project, Module. rewrite He.
  replace (negb (bytes_eqb [] [])) with false by reflexivity.
  destruct (git w git_remote) as [output|]; [| split; [| left]; reflexivity].
  split; [apply Project_loop_no_slash | apply Module_loop_shape].
Qed.

(** The theorem at work: a URL whose path is made of slashes. *)
Lemma names_have_no_slash_witness :
  no_byte "/" (Project sample) = true
  /\ (no_byte "/" (Module (printing (listing (B "origin") (B "file:///"))))
      = true
      \/ Module (printing (listing (B "origin") (B "file:///"))) = B "/").
Proof.
  split.
  - apply (names_have_no_slash sample). reflexivity.
  - apply (names_have_no_slash
             (printing (listing (B "origin") (B "file:///")))).
    reflexivity.
Defined.

(** X8.  A URL that ends at its first colon, or goes on with ".git"
    alone, has an empty path: on its fetch line [Module] returns ".", the
    name that [filepath.Base] gives to the empty path. *)
Theorem Module_empty_path :
  forall (w : world) (ls : list bytes) (name host sfx post : bytes),
    Getenv w (B "PROJECT_NAME") = [] ->
    git w git_remote
    = Some (unlines ls ++ fetch_line name (host ++ B ":" ++ sfx)
            ++ newline ++ post) ->
    before_fetch ls ->
    token name -> token (host ++ B ":" ++ sfx) ->
    no_byte ":" host = true ->
    sfx = [] \/ sfx = B ".git" ->
    Module w = B ".".
Proof.
  intros w ls name host sfx post He Hg Hls Hn Hu Hh Hs.
  unfold Module. rewrite He, Hg.
  replace (negb (bytes_eqb [] [])) with false by reflexivity.
  rewrite Split_unlines
    by (revert Hls; apply Forall_impl; intros l [H _]; exact H).
  rewrite Split_line by (apply fetch_line_no_newline; assumption).
  rewrite Module_loop_skip
    by (revert Hls; apply Forall_impl; intros l [_ H]; exact H).
  cbn [Module_loop].
  rewrite Contains_fetch_line, Fields_fetch_line by assumption.
  cbn [length Nat.ltb Nat.leb nth].
  assert (E : SplitN (host ++ B ":" ++ sfx) (B ":") 2 = [host; sfx]).
  { clear - Hh. unfold SplitN.
    cbn [Z.eqb Z.ltb Z.compare Z.to_nat Pos.to_nat].
    change (Pos.iter_op Init.Nat.add 2 1%nat) with 2%nat.
    change (B ":") with [":"%char].
    induction host as [|c host IH].
    - destruct sfx; reflexivity.
    - cbn [no_byte forallb] in Hh. apply andb_true_iff in Hh as [Hc Hh].
      apply negb_true_iff in Hc.
      change ((c :: host) ++ [":"%char] ++ sfx)
        with (c :: host ++ [":"%char] ++ sfx).
      cbn [splitn_go HasPrefix]. rewrite Hc. cbn [andb].
      rewrite (IH Hh). reflexivity. }
  rewrite E. cbn [length Nat.ltb Nat.leb nth].
  destruct Hs as [-> | ->]; reflexivity.
Qed.

(** The theorem at work. *)
Lemma Module_empty_path_witness :
  Module (printing (listing (B "origin") (B "git@github.com:.git"))) = B ".".
Proof.
  apply (Module_empty_path _ [] (B "origin") (B "git@github.com") (B ".git")
           (B "origin" ++ tab ++ B "git@github.com:.git (push)" ++ newline));
    try reflexivity; try (split; [discriminate | reflexivity]).
  - constructor.
  - right; reflexivity.
Defined.

End Shapes.

(** ** More on the version classifier *)

Section ClassifierMore.

Import VersionCheck.

Lemma alphabet_lang (r : re) (s : bytes) :
  lang r s -> forallb (alphabet r) s = true.
Proof.
  intros H.
  induction H as [| c | lo hi c Hc | r1 r2 s1 s2 _ IH1 _ IH2
                 | r1 r2 s _ IH | r1 r2 s _ IH | r | r s1 s2 _ IH1 _ IH2];
    cbn [alphabet forallb]; try reflexivity.
  - rewrite Ascii.eqb_refl. reflexivity.
  - rewrite Hc. reflexivity.
  - rewrite forallb_app. apply andb_true_iff. split.
    + rewrite forallb_forall in *. intros x Hx. rewrite (IH1 x Hx). reflexivity.
    + rewrite forallb_forall in *. intros x Hx. rewrite (IH2 x Hx).
      apply orb_true_r.
  - rewrite forallb_forall in *. intros x Hx. rewrite (IH x Hx). reflexivity.
  - rewrite forallb_forall in *. intros x Hx. rewrite (IH x Hx).
    apply orb_true_r.
  - rewrite forallb_app. apply andb_true_iff. split; [| exact IH2].
    rewrite forallb_forall in *. intros x Hx. apply (IH1 x Hx).
Qed.

Lemma alphabet_version (c : category) (x : ascii) :
  alphabet (pattern c) x = true -> version_byte x = true.
Proof.
  destruct c; destruct x as [[] [] [] [] [] [] [] []]; vm_compute;
    intros H; (reflexivity || discriminate H).
Qed.

Lemma classify_match (s : bytes) (c : category) :
  classify s = Some c -> MatchString (pattern c) s = true.
Proof.
  unfold classify. intros H. apply find_some in H as [_ H]. exact H.
Qed.

Lemma match_classify (s : bytes) (c : category) :
  MatchString (pattern c) s = true -> classify s = Some c.
Proof.
  intros H. pose proof (match_tail_kind s c H) as Hk.
  unfold classify, precedence. cbn [find].
  destruct c;
    rewrite ?(match_other s _ Release Hk), ?(match_other s _ PreRelease Hk),
      ?(match_other s _ PostRelease Hk) by discriminate;
    rewrite H; reflexivity.
Qed.

Lemma classify_nonempty (s : bytes) (c : category) :
  classify s = Some c -> s <> [].
Proof.
  intros H ->. apply classify_match in H.
  destruct c; vm_compute in H; discriminate H.
Qed.

Lemma classify_version_bytes (s : bytes) (c : category) :
  classify s = Some c -> forallb version_byte s = true.
Proof.
  intros H. apply classify_match, matches_lang, alphabet_lang in H.
  rewrite forallb_forall in *. intros x Hx.
  apply (alphabet_version c). auto.
Qed.

(** X9.  A version string that the classifier accepts is not empty and
    is made of digits, letters and the bytes ".", "_", "-", "~" only: a
    space or a line feed anywhere, also at its end, makes it rejected. *)
Theorem accepted_bytes :
  forall (s : bytes) (c : category),
    classify s = Some c -> s <> [] /\ forallb version_byte s = true.
Proof.
  intros s c H. split.
  - apply (classify_nonempty s c H).
  - apply (classify_version_bytes s c H).
Qed.

(** The theorem at work. *)
Lemma accepted_bytes_witness :
  B "v1.2.3-rc.1" <> [] /\ forallb version_byte (B "v1.2.3-rc.1") = true.
Proof.
  apply (accepted_bytes (B "v1.2.3-rc.1") PreRelease).
  vm_compute. reflexivity.
Defined.

(** X10.  The order in which the four patterns are tried has no effect
    on the result: trying them in any order, each at least once, gives the
    category that [checkVersion] prints. *)
Theorem order_is_immaterial :
  forall (l : list category) (s : bytes),
    (forall c, In c l) ->
    find (fun c => MatchString (pattern c) s) l = classify s.
Proof.
  intros l s Hl.
  destruct (find (fun c => MatchString (pattern c) s) l) as [c|] eqn:E.
  - apply find_some in E as [_ E]. symmetry. apply match_classify. exact E.
  - assert (N : forall c, MatchString (pattern c) s = false)
      by (intros c; apply (find_none _ _ E c (Hl c))).
    unfold classify, precedence. cbn [find]. rewrite !N. reflexivity.
Qed.

(** The theorem at work: the reverse order. *)
Lemma order_is_immaterial_witness :
  find (fun c => MatchString (pattern c) (B "1.2.3.fix.2"))
    [Intermediate; PostRelease; PreRelease; Release]
  = classify (B "1.2.3.fix.2").
Proof.
  apply order_is_immaterial. intros []; simpl; tauto.
Defined.

Lemma pattern_split (c : category) (s : bytes) :
  lang (pattern c) s <->
  exists p a, s = p ++ a /\ lang triple p /\ lang (suffix c) a.
Proof.
  destruct c; cbn [pattern suffix];
    unfold versionRelease, versionPrerelease, versionPostrelease,
      versionIntermediate.
  - split.
    + intros H. exists s, []. rewrite app_nil_r.
      split; [reflexivity | split; [exact H | constructor]].
    + intros (p & a & -> & Hp & Ha). apply lang_eps_inv in Ha as ->.
      rewrite app_nil_r. exact Hp.
  - split; [apply lang_cat_inv|].
    intros (p & a & -> & Hp & Ha). constructor; assumption.
  - split; [apply lang_cat_inv|].
    intros (p & a & -> & Hp & Ha). constructor; assumption.
  - split; [apply lang_cat_inv|].
    intros (p & a & -> & Hp & Ha). constructor; assumption.
Qed.

Lemma numbers_head (q : bytes) :
  lang numbers q -> exists d q', q = d :: q' /\ is_digit d = true.
Proof.
  intros H. apply lang_cat_inv in H as (d1 & r & -> & H1 & _).
  apply lang_number in H1 as [N1 D1].
  destruct d1 as [|d d1]; [congruence|]. simpl in D1.
  apply andb_true_iff in D1 as [Hd _]. exists d, (d1 ++ r). auto.
Qed.

(** The triple with and without its "v". *)
Lemma triple_inv (p : bytes) :
  lang triple p ->
  lang numbers p \/ exists q, p = "v"%char :: q /\ lang numbers q.
Proof.
  intros H. apply lang_cat_inv in H as (o & q & -> & Ho & Hq).
  apply lang_alt_inv in Ho as [Ho | Ho].
  - apply lang_chr_inv in Ho as ->. right. exists q.
    split; [reflexivity | exact Hq].
  - apply lang_eps_inv in Ho as ->. left. exact Hq.
Qed.

Lemma triple_of_numbers (q : bytes) : lang numbers q -> lang triple q.
Proof.
  intros H. apply (LCat _ _ [] q); [apply LAltR; constructor | exact H].
Qed.

Lemma triple_of_v_numbers (q : bytes) :
  lang numbers q -> lang triple ("v"%char :: q).
Proof.
  intros H. apply (LCat _ _ ["v"%char] q); [apply LAltL; constructor | exact H].
Qed.

Lemma numbers_not_v (q : bytes) : lang numbers ("v"%char :: q) -> False.
Proof.
  intros H. apply numbers_head in H as (d & q' & E & Hd).
  injection E as <- _. discriminate Hd.
Qed.

Lemma match_with_v (c : category) (s : bytes) :
  HasPrefix s (B "v") = false ->
  MatchString (pattern c) ("v"%char :: s) = MatchString (pattern c) s.
Proof.
  intros Hv. unfold MatchString.
  destruct (matches (pattern c) s) eqn:E.
  - apply matches_lang. apply matches_lang, pattern_split in E
      as (p & a & -> & Hp & Ha).
    apply pattern_split. exists ("v"%char :: p), a. repeat split; auto.
    apply triple_inv in Hp as [Hp | (q & -> & _)];
      [apply triple_of_v_numbers; exact Hp|].
    simpl in Hv. discriminate Hv.
  - apply not_matches_lang. apply not_matches_lang in E. intros H. apply E.
    apply pattern_split in H as (p & a & Es & Hp & Ha).
    apply triple_inv in Hp as [Hp | (q & -> & Hq)].
    + destruct (numbers_head p Hp) as (d & q' & -> & Hd).
      injection Es as <- _. discriminate Hd.
    + injection Es as ->. apply pattern_split. exists q, a.
      repeat split; auto. apply triple_of_numbers. exact Hq.
Qed.

(** X11.  The "v" at the start of a version string is optional and has
    no effect on its category; a second "v" makes the string rejected. *)
Theorem leading_v_is_immaterial :
  forall s : bytes,
    HasPrefix s (B "v") = false ->
    classify ("v"%char :: s) = classify s
    /\ classify ("v"%char :: "v"%char :: s) = None.
Proof.
  intros s Hv. split.
  - unfold classify, precedence. cbn [find]. rewrite !match_with_v by assumption.
    reflexivity.
  - unfold classify, precedence. cbn [find].
    assert (N : forall c, MatchString (pattern c) ("v"%char :: "v"%char :: s)
                          = false).
    { intros c. apply not_matches_lang. intros H.
      apply pattern_split in H as (p & a & Es & Hp & Ha).
      apply triple_inv in Hp as [Hp | (q & -> & Hq)].
      - destruct (numbers_head p Hp) as (d & q' & -> & Hd).
        injection Es as <- _. discriminate Hd.
      - injection Es as Es. destruct (numbers_head q Hq) as (d & q' & -> & Hd).
        injection Es as <- _. discriminate Hd. }
    rewrite !N. reflexivity.
Qed.

(** The theorem at work. *)
Lemma leading_v_is_immaterial_witness :
  classify (B "v1.2.3_patched.1") = classify (B "1.2.3_patched.1")
  /\ classify (B "vv1.2.3_patched.1") = None.
Proof.
  apply (leading_v_is_immaterial (B "1.2.3_patched.1")). reflexivity.
Defined.

(** X12.  Every accepted version string begins with a release version,
    and the first byte after it names the category: nothing for a release,
    "-" or "~" for a pre-release, "." for a post-release, "_" for an
    intermediate release. *)
Theorem release_core :
  forall (s : bytes) (c : category),
    classify s = Some c ->
    exists p rest,
      s = p ++ rest /\ classify p = Some Release /\ kind rest = Some c.
Proof.
  intros s c H. apply classify_match in H.
  pose proof (match_tail_kind s c H) as Hk.
  apply matches_lang, pattern_split in H as (p & a & -> & Hp & Ha).
  exists p, a. split; [reflexivity|]. split.
  - apply (match_classify p Release). apply matches_lang. exact Hp.
  - unfold tail_kind in Hk.
    assert (Hd : no_digit_head a = true).
    { destruct c; cbn [suffix] in Ha.
      - apply lang_eps_inv in Ha as ->. reflexivity.
      - apply lang_cat_inv in Ha as (x & b & -> & Hx & _).
        apply lang_alt_inv in Hx as [Hx | Hx]; apply lang_chr_inv in Hx as ->;
          reflexivity.
      - apply lang_cat_inv in Ha as (x & b & -> & Hx & _).
        apply lang_chr_inv in Hx as ->. reflexivity.
      - apply lang_cat_inv in Ha as (x & b & -> & Hx & _).
        apply lang_chr_inv in Hx as ->. reflexivity. }
    rewrite (strip_triple_app p a Hp Hd) in Hk. exact Hk.
Qed.

(** The theorem at work. *)
Lemma release_core_witness :
  exists p rest,
    B "1.2.3~beta_x.4" = p ++ rest /\ classify p = Some Release
    /\ kind rest = Some PreRelease.
Proof.
  apply (release_core (B "1.2.3~beta_x.4") PreRelease).
  vm_compute. reflexivity.
Defined.

End ClassifierMore.

(** ** The version under the strategy tag *)

Section VersionTag.

Import VersionCheck.
Import Describe.

Lemma has_space_suffix (w : bytes) :
  has_space w = false ->
  forall pre suf, w = pre ++ suf -> suf <> [] -> space_len suf = 0%nat.
Proof.
  intros H pre. revert w H. induction pre as [|c pre IH]; intros w H suf E Hne.
  - simpl in E. subst suf. destruct w as [|c w]; [congruence|].
    apply has_space_cons in H as [H _]. exact H.
  - subst w. change ((c :: pre) ++ suf) with (c :: pre ++ suf) in H.
    apply has_space_cons in H as [_ H]. apply (IH _ H suf eq_refl Hne).
Qed.

Lemma space_len_last_word (t : bytes) :
  has_space t = false -> space_len_last (rev t) = 0%nat.
Proof.
  intros H. pose proof (has_space_suffix t H) as S.
  destruct (rev t) as [|c r] eqn:E; [reflexivity|].
  apply (f_equal (@rev ascii)) in E. rewrite rev_involutive in E.
  cbn [space_len_last].
  assert (A : asciiSpace c = false).
  { assert (S1 : space_len [c] = 0%nat).
    { apply (S (rev r) [c]); [rewrite E; reflexivity | discriminate]. }
    cbn [space_len] in S1. destruct (asciiSpace c); [discriminate S1|].
    reflexivity. }
  rewrite A. destruct r as [|d u]; [reflexivity|].
  assert (S2 : space_len [d; c] = 0%nat).
  { apply (S (rev u) [d; c]); [| discriminate].
    rewrite E. simpl. rewrite <- app_assoc. reflexivity. }
  rewrite S2. cbn [Nat.eqb]. destruct u as [|e u]; [reflexivity|].
  assert (S3 : space_len [e; d; c] = 0%nat).
  { apply (S (rev u) [e; d; c]); [| discriminate].
    rewrite E. simpl. rewrite <- !app_assoc. reflexivity. }
  rewrite S3. reflexivity.
Qed.

Lemma trim_right_newline (f : nat) (r : bytes) :
  trim_right_fuel (S f) ("010"%char :: r) = trim_right_fuel f r.
Proof. reflexivity. Qed.

Lemma trim_right_word (f : nat) (r : bytes) :
  space_len_last r = 0%nat -> trim_right_fuel f r = r.
Proof. intros H. destruct f; cbn [trim_right_fuel]; [| rewrite H]; reflexivity. Qed.

(** [TrimSpace] takes the line feed off a word without white space. *)
Lemma TrimSpace_line (t : bytes) :
  token t -> TrimSpace (t ++ newline) = t.
Proof.
  intros [Hne H]. unfold TrimSpace.
  assert (L : trim_left_go 0 (t ++ newline) = t ++ newline).
  { destruct t as [|c t]; [congruence|].
    pose proof (has_space_cons c t H) as [Hc _].
    pose proof (space_len_app (c :: t) newline ltac:(discriminate) Hc
                  eq_refl) as E.
    change ((c :: t) ++ newline) with (c :: t ++ newline) in *.
    cbn [trim_left_go]. rewrite E. reflexivity. }
  rewrite L, rev_app_distr, length_app, Nat.add_1_r.
  change (rev newline ++ rev t) with ("010"%char :: rev t).
  rewrite trim_right_newline, trim_right_word
    by (apply space_len_last_word; exact H).
  apply rev_involutive.
Qed.

Lemma Replace_none (c : ascii) (new s : bytes) :
  no_byte c s = true -> Replace s [c] new 1 = s.
Proof.
  unfold Replace. cbn [Z.ltb Z.compare Z.to_nat Pos.to_nat].
  change (Pos.iter_op Init.Nat.add 1 1%nat) with 1%nat.
  induction s as [|x s IH]; intros H; [reflexivity|].
  cbn [no_byte forallb] in H. apply andb_true_iff in H as [Hx H].
  apply negb_true_iff in Hx. cbn [replace_go HasPrefix]. rewrite Hx.
  cbn [andb]. rewrite (IH H). reflexivity.
Qed.

(** Only the first occurrence is replaced. *)
Lemma Replace_first (c : ascii) (new a b : bytes) :
  no_byte c a = true -> Replace (a ++ c :: b) [c] new 1 = a ++ new ++ b.
Proof.
  unfold Replace. cbn [Z.ltb Z.compare Z.to_nat Pos.to_nat].
  change (Pos.iter_op Init.Nat.add 1 1%nat) with 1%nat.
  induction a as [|x a IH]; intros H.
  - cbn [app replace_go HasPrefix]. rewrite Ascii.eqb_refl. cbn [andb].
    cbn [option_map pred length Nat.sub].
    destruct b; reflexivity.
  - cbn [no_byte forallb] in H. apply andb_true_iff in H as [Hx H].
    apply negb_true_iff in Hx.
    change ((x :: a) ++ c :: b) with (x :: a ++ c :: b).
    cbn [replace_go HasPrefix]. rewrite Hx. cbn [andb]. rewrite (IH H).
    reflexivity.
Qed.

Lemma versionTag_unfold (w : world) (tag : bytes) :
  git w describe_tag = Some (tag ++ newline) -> token tag ->
  versionTag w = Replace (TrimPrefix tag (B "v")) (B "-") (B "~") 1.
Proof.
  intros Hg Ht. unfold versionTag. fold describe_tag. rewrite Hg.
  rewrite (TrimSpace_line tag Ht). reflexivity.
Qed.

(** X13.  Under the strategy tag, for a tag "v" followed by a text
    without white space, the version is that text with its first "-"
    turned into "~": the "-" that follow it stay, and a text without "-"
    is returned as it is. *)
Theorem versionTag_first_dash :
  forall (w : world) (a b : bytes),
    no_byte "-" a = true ->
    (git w describe_tag = Some (B "v" ++ a ++ B "-" ++ b ++ newline) ->
     token (B "v" ++ a ++ B "-" ++ b) ->
     versionTag w = a ++ B "~" ++ b)
    /\ (git w describe_tag = Some (B "v" ++ a ++ newline) ->
        token (B "v" ++ a) ->
        versionTag w = a).
Proof.
  intros w a b Ha. split; intros Hg Ht.
  - rewrite (versionTag_unfold w (B "v" ++ a ++ B "-" ++ b))
      by (rewrite <- ?app_assoc; assumption).
    change (TrimPrefix (B "v" ++ a ++ B "-" ++ b) (B "v"))
      with (a ++ "-"%char :: b).
    change (B "-") with ["-"%char]. apply Replace_first. exact Ha.
  - rewrite (versionTag_unfold w (B "v" ++ a)) by assumption.
    change (TrimPrefix (B "v" ++ a) (B "v")) with a.
    change (B "-") with ["-"%char]. apply Replace_none. exact Ha.
Qed.

(** The theorem at work: the tag of the sample repository, and a tag
    with two "-". *)
Lemma versionTag_first_dash_witness :
  versionTag sample = B "1.2.3~rc.1"
  /\ versionTag (printing (B "v1.2.3-rc-2" ++ newline)) = B "1.2.3~rc-2".
Proof.
  split.
  - apply (versionTag_first_dash sample (B "1.2.3") (B "rc.1"));
      [reflexivity | reflexivity | split; [discriminate | reflexivity]].
  - apply (versionTag_first_dash _ (B "1.2.3") (B "rc-2"));
      [reflexivity | reflexivity | split; [discriminate | reflexivity]].
Defined.

End VersionTag.

(** ** The two tools together *)

Section TwoTools.

Import VersionCheck.
Import Describe.

Lemma version_byte_no_space (x : ascii) (t : bytes) :
  version_byte x = true -> space_len (x :: t) = 0%nat.
Proof.
  destruct x as [[] [] [] [] [] [] [] []]; vm_compute;
    intros H; (reflexivity || discriminate H).
Qed.

Lemma version_bytes_word (s : bytes) :
  forallb version_byte s = true -> has_space s = false.
Proof.
  induction s as [|x s IH]; intros H; [reflexivity|].
  cbn [forallb] in H. apply andb_true_iff in H as [Hx H].
  cbn [has_space]. rewrite (version_byte_no_space x s Hx), (IH H).
  reflexivity.
Qed.

Lemma alphabet_lacks (r : re) (c : ascii) (s : bytes) :
  lang r s -> alphabet r c = false -> no_byte c s = true.
Proof.
  intros H Hc. apply alphabet_lang in H. unfold no_byte.
  rewrite forallb_forall in *. intros x Hx. apply negb_true_iff.
  destruct (Ascii.eqb_spec x c) as [-> |]; [| reflexivity].
  rewrite (H c Hx) in Hc. discriminate Hc.
Qed.

(** The version of a tag keeps the pattern that the tag matches. *)
Lemma rewritten_tag_matches (c : category) (tag : bytes) :
  MatchString (pattern c) tag = true ->
  MatchString (pattern c)
    (Replace (TrimPrefix tag (B "v")) (B "-") (B "~") 1) = true.
Proof.
  unfold MatchString. intros H.
  apply matches_lang, pattern_split in H as (p & a & -> & Hp & Ha).
  assert (T : exists q, TrimPrefix (p ++ a) (B "v") = q ++ a
                        /\ lang numbers q).
  { apply triple_inv in Hp as [Hp | (q & -> & Hq)].
    - exists p. split; [| exact Hp].
      destruct (numbers_head p Hp) as (d & p' & -> & Hd).
      unfold TrimPrefix. cbn [app HasPrefix B list_ascii_of_string].
      rewrite (digit_not_v d Hd). reflexivity.
    - exists q. split; [reflexivity | exact Hq]. }
  destruct T as (q & -> & Hq).
  pose proof (alphabet_lacks numbers "-" q Hq eq_refl) as Nq.
  change (B "-") with ["-"%char].
  apply matches_lang, pattern_split.
  destruct c; cbn [suffix] in Ha.
  - apply lang_eps_inv in Ha as ->. rewrite app_nil_r.
    rewrite Replace_none by assumption.
    exists q, []. rewrite app_nil_r.
    split; [reflexivity | split; [apply triple_of_numbers; exact Hq|]].
    constructor.
  - apply lang_cat_inv in Ha as (x & rest & -> & Hx & Hrest).
    pose proof (alphabet_lacks _ "-" rest Hrest eq_refl) as Nr.
    apply lang_alt_inv in Hx as [Hx | Hx]; apply lang_chr_inv in Hx as ->.
    + change (q ++ ["-"%char] ++ rest) with (q ++ "-"%char :: rest).
      rewrite Replace_first by assumption.
      exists q, (B "~" ++ rest).
      split; [reflexivity | split; [apply triple_of_numbers; exact Hq|]].
      cbn [suffix]. apply (LCat _ _ (B "~") rest); [| exact Hrest].
      apply LAltR. constructor.
    + rewrite Replace_none
        by (rewrite !no_byte_app, Nq, Nr; reflexivity).
      exists q, (["~"%char] ++ rest).
      split; [reflexivity | split; [apply triple_of_numbers; exact Hq|]].
      cbn [suffix]. apply (LCat _ _ ["~"%char] rest); [| exact Hrest].
      apply LAltR. constructor.
  - pose proof (alphabet_lacks _ "-" a Ha eq_refl) as Na.
    rewrite Replace_none by (rewrite no_byte_app, Nq, Na; reflexivity).
    exists q, a.
    split; [reflexivity | split; [apply triple_of_numbers; exact Hq|]].
    exact Ha.
  - pose proof (alphabet_lacks _ "-" a Ha eq_refl) as Na.
    rewrite Replace_none by (rewrite no_byte_app, Nq, Na; reflexivity).
    exists q, a.
    split; [reflexivity | split; [apply triple_of_numbers; exact Hq|]].
    exact Ha.
Qed.

(** X14.  The two tools agree: when the tag that git prints under the
    strategy tag is a version string of some category for the classifier,
    the version that the describe tool derives from it (the "v" taken off,
    the first "-" turned into "~") is a version string of the same
    category. *)
Theorem version_keeps_category :
  forall (w : world) (tag : bytes) (c : category),
    git w describe_tag = Some (tag ++ newline) ->
    classify tag = Some c ->
    classify (versionTag w) = Some c.
Proof.
  intros w tag c Hg Hc.
  pose proof (classify_nonempty tag c Hc) as Hne.
  pose proof (classify_version_bytes tag c Hc) as Hb.
  rewrite (versionTag_unfold w tag Hg)
    by (split; [exact Hne | apply version_bytes_word; exact Hb]).
  apply match_classify, rewritten_tag_matches, classify_match. exact Hc.
Qed.

(** The theorem at work on the sample repository. *)
Lemma version_keeps_category_witness :
  classify (versionTag sample) = Some PreRelease.
Proof.
  apply (version_keeps_category sample (B "v1.2.3-rc.1"));
    vm_compute; reflexivity.
Defined.

End TwoTools.

(** ** The version under the strategies abbrev and rank *)

Section AbbrevRank.

Import Describe.

Lemma versionAbbrev_unfold (w : world) (t : bytes) :
  git w describe_abbrev = Some (t ++ newline) -> token t ->
  no_byte "n" t = true ->
  versionAbbrev w
  = if HasPrefix t (B "v")
    then TrimPrefix (Replace (Replace t (B "-g") (B "") 1) (B "-") (B "~") 1)
           (B "v")
    else [].
Proof.
  intros Hg Ht Hn. unfold versionAbbrev. rewrite Hg, (TrimSpace_line t Ht).
  change (B "n") with ["n"%char]. rewrite (Split_none "n" t Hn).
  cbn [abbrev_loop]. destruct (HasPrefix t (B "v")); reflexivity.
Qed.

Lemma versionRank_unfold (w : world) (t : bytes) :
  git w describe_rank = Some (t ++ newline) -> token t ->
  no_byte "n" t = true ->
  versionRank w = if HasPrefix t (B "v") then TrimPrefix t (B "v") else [].
Proof.
  intros Hg Ht Hn. unfold versionRank. fold describe_rank.
  rewrite Hg, (TrimSpace_line t Ht).
  change (B "n") with ["n"%char]. rewrite (Split_none "n" t Hn).
  cbn [filter]. destruct (HasPrefix t (B "v")); reflexivity.
Qed.

(** The marker "-g" is looked for from the left: a text without "-" is
    passed over. *)
Lemma replace_marker_skip (a rest : bytes) (k : option nat) :
  k <> Some 0%nat -> no_byte "-" a = true ->
  replace_go ["-"%char; "g"%char] [] k 0 (a ++ rest)
  = a ++ replace_go ["-"%char; "g"%char] [] k 0 rest.
Proof.
  intros Hk Ha. induction a as [|x a IH]; [reflexivity|].
  cbn [no_byte forallb] in Ha. apply andb_true_iff in Ha as [Hx Ha].
  apply negb_true_iff in Hx.
  change ((x :: a) ++ rest) with (x :: a ++ rest).
  cbn [replace_go HasPrefix]. rewrite Hx. cbn [andb].
  rewrite (IH Ha).
  destruct k as [[|k]|]; [congruence | reflexivity | reflexivity].
Qed.

Lemma digit_not (c : ascii) (x : ascii) :
  VersionCheck.is_digit c = false ->
  VersionCheck.is_digit x = true -> Ascii.eqb x c = false.
Proof.
  intros Hc Hx. destruct (Ascii.eqb_spec x c) as [-> |]; [congruence | reflexivity].
Qed.

Lemma digits_lack (c : ascii) (n : bytes) :
  VersionCheck.is_digit c = false ->
  forallb VersionCheck.is_digit n = true -> no_byte c n = true.
Proof.
  intros Hc Hn. induction n as [|y n IH]; [reflexivity|].
  cbn [forallb no_byte] in *. apply andb_true_iff in Hn as [Hy Hn].
  rewrite (digit_not c y Hc Hy). cbn [negb andb]. apply IH. exact Hn.
Qed.

Lemma Replace_marker (a n h : bytes) :
  no_byte "-" a = true -> n <> [] -> forallb VersionCheck.is_digit n = true ->
  Replace (a ++ B "-" ++ n ++ B "-g" ++ h) (B "-g") (B "") 1
  = a ++ B "-" ++ n ++ h.
Proof.
  intros Ha Hne Hn. unfold Replace.
  change (B "-g") with ["-"%char; "g"%char]. change (B "") with (@nil ascii).
  change (B "-") with ["-"%char].
  cbn [Z.ltb Z.compare Z.to_nat Pos.to_nat].
  change (Pos.iter_op Init.Nat.add 1 1%nat) with 1%nat.
  rewrite replace_marker_skip by (assumption || discriminate).
  f_equal. pose proof (digits_lack "-" n eq_refl Hn) as Nn.
  destruct n as [|d n]; [congruence|].
  cbn [forallb] in Hn. apply andb_true_iff in Hn as [Hd _].
  pose proof (digit_not "g" d eq_refl Hd) as Dg.
  change (["-"%char] ++ (d :: n) ++ ["-"%char; "g"%char] ++ h)
    with ("-"%char :: (d :: n) ++ ["-"%char; "g"%char] ++ h).
  cbn [replace_go]. 
  replace (HasPrefix ("-"%char :: (d :: n) ++ ["-"%char; "g"%char] ++ h)
             ["-"%char; "g"%char]) with false
    by (cbn [app HasPrefix]; rewrite Ascii.eqb_refl, Dg; reflexivity).
  f_equal.
  rewrite replace_marker_skip by (assumption || discriminate).
  f_equal. cbn [app replace_go HasPrefix].
  rewrite !Ascii.eqb_refl. cbn [andb option_map pred length Nat.sub app].
  destruct h; reflexivity.
Qed.

(** X15.  Under the strategy abbrev, for a text of one line without
    white space and without the letter n: when it does not begin with "v"
    (no tag matches and git prints a bare hash) the version is empty; for
    "v", a tag without "-", "-", the distance, "-g" and the hash, it is the
    tag, "~", the distance and then the hash digits, with nothing between
    the two; for "v" and a tag without "-" alone it is the tag. *)
Theorem versionAbbrev_one_line :
  forall (w : world) (t : bytes),
    git w describe_abbrev = Some (t ++ newline) -> token t ->
    no_byte "n" t = true ->
    (HasPrefix t (B "v") = false -> versionAbbrev w = [])
    /\ (forall tag n h,
          t = B "v" ++ tag ++ B "-" ++ n ++ B "-g" ++ h ->
          no_byte "-" tag = true -> n <> [] ->
          forallb VersionCheck.is_digit n = true ->
          versionAbbrev w = tag ++ B "~" ++ n ++ h)
    /\ (forall tag,
          t = B "v" ++ tag -> no_byte "-" tag = true ->
          versionAbbrev w = tag).
Proof.
  intros w t Hg Ht Hn. rewrite (versionAbbrev_unfold w t Hg Ht Hn).
  split; [| split].
  - intros ->. reflexivity.
  - intros tag n h -> Htag Hne Hd.
    change (HasPrefix (B "v" ++ tag ++ B "-" ++ n ++ B "-g" ++ h) (B "v"))
      with true. cbv iota.
    replace (B "v" ++ tag ++ B "-" ++ n ++ B "-g" ++ h)
      with ((B "v" ++ tag) ++ B "-" ++ n ++ B "-g" ++ h)
      by (rewrite <- app_assoc; reflexivity).
    rewrite Replace_marker by (assumption || (cbn; exact Htag)).
    change ((B "v" ++ tag) ++ B "-" ++ n ++ h)
      with ((B "v" ++ tag) ++ "-"%char :: (n ++ h)).
    change (B "-") with ["-"%char].
    rewrite Replace_first by (cbn; exact Htag). reflexivity.
  - intros tag -> Htag.
    change (HasPrefix (B "v" ++ tag) (B "v")) with true. cbv iota.
    assert (E : Replace (B "v" ++ tag) (B "-g") (B "") 1 = B "v" ++ tag).
    { unfold Replace. change (B "-g") with ["-"%char; "g"%char].
      change (B "") with (@nil ascii).
      cbn [Z.ltb Z.compare Z.to_nat Pos.to_nat].
      change (Pos.iter_op Init.Nat.add 1 1%nat) with 1%nat.
      rewrite <- (app_nil_r (B "v" ++ tag)) at 1.
      rewrite replace_marker_skip by ((cbn; exact Htag) || discriminate).
      apply app_nil_r. }
    rewrite E. change (B "-") with ["-"%char].
    rewrite Replace_none by (cbn; exact Htag). reflexivity.
Qed.

(** The theorem at work: five commits after v1.2.3. *)
Lemma versionAbbrev_one_line_witness :
  versionAbbrev (printing (B "v1.2.3-5-gab12" ++ newline)) = B "1.2.3~5ab12".
Proof.
  assert (Ht : token (B "v1.2.3-5-gab12"))
    by (split; [discriminate | vm_compute; reflexivity]).
  assert (Hn : no_byte "n" (B "v1.2.3-5-gab12") = true)
    by (vm_compute; reflexivity).
  destruct (versionAbbrev_one_line (printing (B "v1.2.3-5-gab12" ++ newline))
              (B "v1.2.3-5-gab12") eq_refl Ht Hn) as (_ & H & _).
  apply (H (B "1.2.3") (B "5") (B "ab12"));
    [reflexivity | reflexivity | discriminate | reflexivity].
Defined.

Lemma bytes_leb_refl (a : bytes) : bytes_leb a a = true.
Proof.
  induction a as [|x a IH]; [reflexivity|]. cbn [bytes_leb].
  rewrite N.ltb_irrefl. exact IH.
Qed.

Lemma bytes_leb_total (a b : bytes) :
  bytes_leb a b = false -> bytes_leb b a = true.
Proof.
  revert b. induction a as [|x a IH]; intros [|y b] H; try discriminate H;
    try reflexivity.
  cbn [bytes_leb] in *.
  destruct (code x <? code y)%N eqn:E1; [discriminate H|].
  destruct (code y <? code x)%N eqn:E2; [reflexivity|]. auto.
Qed.

Lemma bytes_leb_trans (a b c : bytes) :
  bytes_leb a b = true -> bytes_leb b c = true -> bytes_leb a c = true.
Proof.
  revert b c. induction a as [|x a IH]; intros [|y b] [|z c] H1 H2;
    try discriminate; try reflexivity.
  cbn [bytes_leb] in *.
  destruct (code x <? code y)%N eqn:Exy, (code y <? code x)%N eqn:Eyx,
    (code y <? code z)%N eqn:Eyz, (code z <? code y)%N eqn:Ezy;
    try discriminate;
    repeat match goal with
           | H : (_ <? _)%N = true |- _ => apply N.ltb_lt in H
           | H : (_ <? _)%N = false |- _ => apply N.ltb_ge in H
           end;
    try lia.
  - replace (code x <? code z)%N with true
      by (symmetry; apply N.ltb_lt; lia). reflexivity.
  - replace (code x <? code z)%N with true
      by (symmetry; apply N.ltb_lt; lia). reflexivity.
  - replace (code x <? code z)%N with true
      by (symmetry; apply N.ltb_lt; lia). reflexivity.
  - replace (code x <? code z)%N with false
      by (symmetry; apply N.ltb_ge; lia).
    replace (code z <? code x)%N with false
      by (symmetry; apply N.ltb_ge; lia). eauto.
Qed.

(** X16.  Under the strategy rank, for a text of one line without white
    space and without the letter n: when it does not begin with "v" the
    version is empty, and when it is "v" and a text, the version is that
    text as it stands, with its "-" and the marker of the hash. *)
Theorem versionRank_one_line :
  forall (w : world) (t : bytes),
    git w describe_rank = Some (t ++ newline) -> token t ->
    no_byte "n" t = true ->
    (HasPrefix t (B "v") = false -> versionRank w = [])
    /\ (forall x, t = B "v" ++ x -> versionRank w = x).
Proof.
  intros w t Hg Ht Hn. rewrite (versionRank_unfold w t Hg Ht Hn). split.
  - intros ->. reflexivity.
  - intros x ->. reflexivity.
Qed.

(** The theorem at work: HEAD on the tag v1.2.3-rc.1, and no tag at
    all. *)
Lemma versionRank_one_line_witness :
  versionRank (printing (B "v1.2.3-rc.1" ++ newline)) = B "1.2.3-rc.1"
  /\ versionRank (printing (B "4f2a91c" ++ newline)) = [].
Proof.
  split.
  - assert (Ht : token (B "v1.2.3-rc.1"))
      by (split; [discriminate | vm_compute; reflexivity]).
    destruct (versionRank_one_line (printing (B "v1.2.3-rc.1" ++ newline))
                (B "v1.2.3-rc.1") eq_refl Ht eq_refl) as [_ H].
    apply (H (B "1.2.3-rc.1")). reflexivity.
  - assert (Ht : token (B "4f2a91c"))
      by (split; [discriminate | vm_compute; reflexivity]).
    destruct (versionRank_one_line (printing (B "4f2a91c" ++ newline))
                (B "4f2a91c") eq_refl Ht eq_refl) as [H _].
    apply H. reflexivity.
Defined.

Lemma insert_sorted_In (x p : bytes) (l : list bytes) :
  In p (insert_sorted x l) <-> p = x \/ In p l.
Proof.
  induction l as [|y l IH]; cbn [insert_sorted].
  - simpl. intuition congruence.
  - destruct (bytes_leb x y); simpl in *; [intuition congruence|].
    rewrite IH. intuition congruence.
Qed.

Lemma Strings_In (p : bytes) (l : list bytes) : In p (Strings l) <-> In p l.
Proof.
  unfold Strings. induction l as [|x l IH]; [reflexivity|].
  cbn [fold_right]. rewrite insert_sorted_In, IH. simpl. intuition congruence.
Qed.

Lemma insert_sorted_sorted (x : bytes) (l : list bytes) :
  StronglySorted le_bytes l -> StronglySorted le_bytes (insert_sorted x l).
Proof.
  intros H. induction H as [|y l Hs IH Hy]; cbn [insert_sorted].
  - repeat constructor.
  - destruct (bytes_leb x y) eqn:E.
    + constructor; [constructor; assumption|].
      constructor; [exact E|].
      rewrite Forall_forall in *. intros p Hp.
      apply (bytes_leb_trans x y p E (Hy p Hp)).
    + constructor; [exact IH|].
      rewrite Forall_forall in *. intros p Hp.
      apply insert_sorted_In in Hp as [-> | Hp];
        [apply bytes_leb_total; exact E | apply Hy; exact Hp].
Qed.

Lemma Strings_sorted (l : list bytes) : StronglySorted le_bytes (Strings l).
Proof.
  unfold Strings. induction l as [|x l IH]; [constructor|].
  cbn [fold_right]. apply insert_sorted_sorted. exact IH.
Qed.

(** The element [versions[len(versions)-1]] of a sorted slice is one of
    its elements and none is above it. *)
Lemma sorted_last (l : list bytes) :
  StronglySorted le_bytes l -> l <> [] ->
  In (nth (length l - 1) l []) l
  /\ forall p, In p l -> le_bytes p (nth (length l - 1) l []).
Proof.
  intros H. induction H as [|x l Hs IH Hx]; [congruence|]. intros _.
  destruct l as [|y l].
  - cbn. split; [left; reflexivity|].
    intros p [<- | []]. apply bytes_leb_refl.
  - destruct (IH ltac:(discriminate)) as [Hin Hmax].
    replace (nth (length (x :: y :: l) - 1) (x :: y :: l) [])
      with (nth (length (y :: l) - 1) (y :: l) [])
      by (cbn [length Nat.sub nth]; rewrite Nat.sub_0_r; reflexivity).
    split; [right; exact Hin|].
    intros p [<- | Hp]; [| apply Hmax; exact Hp].
    rewrite Forall_forall in Hx. apply Hx. exact Hin.
Qed.

(** X17.  Under the strategy rank, of the pieces of the text that begin
    with "v" (the text is cut at each letter n) the version is the one
    that no other is above in the order of the bytes, its "v" taken off:
    2 is above 10 in this order.  Without such a piece the version is
    empty. *)
Theorem versionRank_greatest :
  forall (w : world) (output : bytes),
    git w describe_rank = Some output ->
    let pieces :=
      filter (fun l => HasPrefix l (B "v"))
        (Split (TrimSpace output) (B "n")) in
    (pieces = [] -> versionRank w = [])
    /\ (pieces <> [] ->
        exists m,
          In m pieces
          /\ (forall p, In p pieces -> bytes_leb p m = true)
          /\ versionRank w = TrimPrefix m (B "v")).
Proof.
  intros w output Hg pieces. unfold versionRank. fold describe_rank.
  rewrite Hg. cbv zeta. fold pieces. split.
  - intros ->. reflexivity.
  - intros Hne.
    assert (Hs : Strings pieces <> []).
    { intros E. destruct pieces as [|p ps]; [congruence|].
      assert (Hp : In p (Strings (p :: ps)))
        by (apply Strings_In; left; reflexivity).
      rewrite E in Hp. exact Hp. }
    destruct (sorted_last (Strings pieces) (Strings_sorted pieces) Hs)
      as [Hin Hmax].
    exists (nth (length (Strings pieces) - 1) (Strings pieces) []).
    split; [apply Strings_In; exact Hin|].
    split; [intros p Hp; apply Hmax, Strings_In; exact Hp|].
    destruct (Strings pieces); [congruence | reflexivity].
Qed.

(** The theorem at work: two pieces that begin with "v". *)
Lemma versionRank_greatest_witness :
  versionRank (printing (B "v10.0.0-nv2.0.0" ++ newline)) = B "2.0.0".
Proof.
  destruct (versionRank_greatest
              (printing (B "v10.0.0-nv2.0.0" ++ newline))
              (B "v10.0.0-nv2.0.0" ++ newline) eq_refl) as [_ H].
  destruct H as (m & Hin & Hmax & E); [vm_compute; discriminate|].
  rewrite E. clear E. vm_compute in Hin, Hmax.
  destruct Hin as [<- | [<- | []]].
  - specialize (Hmax (B "v2.0.0") (or_intror (or_introl eq_refl))).
    vm_compute in Hmax. discriminate Hmax.
  - reflexivity.
Defined.

End AbbrevRank.

(** ** The project name, where the cut at the letter n leaves it whole *)

Section ProjectName.

Import Describe.

Lemma Split_cut (c : ascii) (x rest : bytes) :
  no_byte c x = true -> Split (x ++ c :: rest) [c] = x :: Split rest [c].
Proof.
  intros H. unfold Split. induction x as [|d x IH].
  - cbn [app split_go HasPrefix]. rewrite Ascii.eqb_refl. reflexivity.
  - cbn [no_byte forallb] in H. apply andb_true_iff in H as [Hd H].
    apply negb_true_iff in Hd.
    change ((d :: x) ++ c :: rest) with (d :: x ++ c :: rest).
    cbn [split_go HasPrefix]. rewrite Hd. cbn [andb]. rewrite (IH H).
    reflexivity.
Qed.

Lemma Split_prefix (c : ascii) (m rest : bytes) :
  no_byte c m = true ->
  exists x0 xs, Split (m ++ rest) [c] = (m ++ x0) :: xs.
Proof.
  intros H. unfold Split. induction m as [|d m IH].
  - destruct (split_go_cons [c] rest) as (x0 & xs & E). exists x0, xs. exact E.
  - cbn [no_byte forallb] in H. apply andb_true_iff in H as [Hd H].
    apply negb_true_iff in Hd. destruct (IH H) as (x0 & xs & E).
    exists x0, xs. change ((d :: m) ++ rest) with (d :: m ++ rest).
    cbn [split_go HasPrefix]. rewrite Hd. cbn [andb]. rewrite E. reflexivity.
Qed.

Lemma SplitN_first (c : ascii) (a b : bytes) :
  no_byte c a = true -> SplitN (a ++ c :: b) [c] 2 = [a; b].
Proof.
  intros H. unfold SplitN. cbn [Z.eqb Z.ltb Z.compare Z.to_nat Pos.to_nat].
  change (Pos.iter_op Init.Nat.add 2 1%nat) with 2%nat.
  induction a as [|x a IH].
  - cbn [app splitn_go HasPrefix]. rewrite Ascii.eqb_refl. cbn [andb].
    destruct b; reflexivity.
  - cbn [no_byte forallb] in H. apply andb_true_iff in H as [Hx H].
    apply negb_true_iff in Hx.
    change ((x :: a) ++ c :: b) with (x :: a ++ c :: b).
    cbn [splitn_go HasPrefix]. rewrite Hx. cbn [andb]. rewrite (IH H).
    reflexivity.
Qed.

Lemma ReplaceAll_one (c d : ascii) (a b : bytes) :
  no_byte c a = true -> no_byte c b = true ->
  ReplaceAll (a ++ c :: b) [c] [d] = a ++ d :: b.
Proof.
  intros Ha Hb. unfold ReplaceAll, Replace. cbn [Z.ltb Z.compare].
  assert (N : forall s, no_byte c s = true -> replace_go [c] [d] None 0 s = s).
  { induction s as [|x s IH]; intros H; [reflexivity|].
    cbn [no_byte forallb] in H. apply andb_true_iff in H as [Hx H].
    apply negb_true_iff in Hx. cbn [replace_go HasPrefix]. rewrite Hx.
    cbn [andb]. rewrite (IH H). reflexivity. }
  induction a as [|x a IH].
  - cbn [app replace_go HasPrefix]. rewrite Ascii.eqb_refl.
    cbn [andb option_map length Nat.sub app]. rewrite (N b Hb). reflexivity.
  - cbn [no_byte forallb] in Ha. apply andb_true_iff in Ha as [Hx Ha].
    apply negb_true_iff in Hx.
    change ((x :: a) ++ c :: b) with (x :: a ++ c :: b).
    cbn [replace_go HasPrefix]. rewrite Hx. cbn [andb]. rewrite (IH Ha).
    reflexivity.
Qed.

Lemma skipn_last_two {A} (l : list A) (a b : A) :
  skipn (length ((l ++ [a]) ++ [b]) - 2) ((l ++ [a]) ++ [b]) = [a; b].
Proof.
  rewrite <- app_assoc. cbn [app]. rewrite length_app. cbn [length].
  replace (length l + 2 - 2)%nat with (length l) by lia.
  rewrite skipn_app, Nat.sub_diag, skipn_all. reflexivity.
Qed.

(** The piece that [Project] reads on the listing of a remote whose name
    ends with the letter n, when the URL has no n: its fields start with
    the URL. *)
Lemma Project_piece (x url rest : bytes) :
  no_byte "n" x = true -> token url -> no_byte "n" url = true ->
  exists piece junk pieces,
    Split (fetch_line (x ++ B "n") url ++ newline ++ rest) (B "n")
    = x :: piece :: pieces
    /\ Contains piece (B "fetch") = true
    /\ Fields piece = url :: B "(fetch)" :: Fields junk.
Proof.
  intros Hx [Hne Hu] Hn.
  assert (E : fetch_line (x ++ B "n") url ++ newline ++ rest
              = x ++ "n"%char
                :: (tab ++ url ++ B " (fetch)" ++ newline) ++ rest).
  { unfold fetch_line. rewrite <- !app_assoc. reflexivity. }
  rewrite E. change (B "n") with ["n"%char]. rewrite Split_cut by assumption.
  destruct (Split_prefix "n" (tab ++ url ++ B " (fetch)" ++ newline) rest)
    as (junk & pieces & Es).
  { rewrite !no_byte_app, Hn. reflexivity. }
  rewrite Es. exists ((tab ++ url ++ B " (fetch)" ++ newline) ++ junk), junk,
    pieces.
  split; [reflexivity|]. split.
  - rewrite <- !app_assoc. apply Contains_app_r, Contains_app_r. reflexivity.
  - unfold Fields, tab. rewrite <- !app_assoc.
    change (B (String "009" "") ++ url ++ B " (fetch)" ++ newline ++ junk)
      with ("009"%char :: url ++ B " (fetch)" ++ newline ++ junk).
    cbn [fields_go].
    replace (space_len
               ("009"%char :: url ++ B " (fetch)" ++ newline ++ junk))
      with 1%nat by reflexivity.
    cbn [flush app]. rewrite fields_go_word by (assumption || reflexivity).
    cbn [app]. destruct url as [|u url]; [congruence|].
    change (B " (fetch)" ++ newline ++ junk)
      with (" "%char :: B "(fetch)" ++ newline ++ junk).
    cbn [fields_go].
    replace (space_len (" "%char :: B "(fetch)" ++ newline ++ junk))
      with 1%nat by reflexivity.
    cbn [flush app]. reflexivity.
Qed.

Lemma Project_https_last_two :
  forall (w : world) (x scheme host org repo sfx rest : bytes),
    Getenv w (B "PROJECT_NAME") = [] ->
    git w git_remote
    = Some (fetch_line (x ++ B "n") (https_url scheme host org repo sfx)
            ++ newline ++ rest) ->
    no_byte "n" x = true -> Contains x (B "fetch") = false ->
    token (https_url scheme host org repo sfx) ->
    no_byte "n" (https_url scheme host org repo sfx) = true ->
    no_byte "/" org = true -> repo_name repo sfx ->
    Project w = org ++ B "-" ++ repo.
Proof.
  intros w x scheme host org repo sfx rest He Hg Hx Hf Hu Hn Ho (Hne & Hr & Hs).
  unfold Project. rewrite He, Hg.
  replace (negb (bytes_eqb [] [])) with false by reflexivity.
  destruct (Project_piece x _ rest Hx Hu Hn)
    as (piece & junk & pieces & -> & Hc & Hfields).
  cbn [Project_loop]. rewrite Hf, Hc, Hfields. cbn [length Nat.ltb Nat.leb nth].
  assert (C : Contains (https_url scheme host org repo sfx) (B "://") = true).
  { unfold https_url. apply Contains_app_r. reflexivity. }
  rewrite C.
  assert (Nr : no_byte "/" (repo ++ sfx) = true).
  { rewrite no_byte_app, Hr. destruct Hs as [-> | [-> _]]; reflexivity. }
  assert (S : Split (https_url scheme host org repo sfx) (B "/")
              = (Split (scheme ++ B "://" ++ host) (B "/") ++ [org])
                ++ [repo ++ sfx]).
  { unfold https_url. change (B "/") with ["/"%char].
    replace (scheme ++ B "://" ++ host ++ ["/"%char] ++ org ++ ["/"%char]
             ++ repo ++ sfx)
      with (((scheme ++ B "://" ++ host) ++ "/"%char :: org)
            ++ "/"%char :: (repo ++ sfx))
      by (rewrite <- !app_assoc; reflexivity).
    rewrite Split_last by assumption. rewrite Split_last by assumption.
    reflexivity. }
  rewrite S, skipn_last_two.
  match goal with
  | |- context [if ?b then _ else _] =>
      replace b with false
        by (symmetry; apply Nat.leb_gt; rewrite !length_app; cbn [length]; lia)
  end.
  cbn [Join]. change (B "/") with ["/"%char]. change (B "-") with ["-"%char].
  replace (org ++ ["/"%char] ++ repo ++ sfx)
    with ((org ++ "/"%char :: repo) ++ sfx)
    by (rewrite <- app_assoc; reflexivity).
  destruct Hs as [-> | [-> Hs]].
  - rewrite TrimSuffix_app. apply ReplaceAll_one; assumption.
  - rewrite app_nil_r, TrimSuffix_keep by assumption.
    apply ReplaceAll_one; assumption.
Qed.

(** X18.  [Project] gives org-repo, the last two elements of the path
    joined by "-", for the URL scheme://host/org/repo, followed or not by
    ".git" and whatever the path has before org, when the cut of the
    listing at each letter n leaves that URL whole and first in its piece:
    the name of the remote ends with n, as origin does, has no other n and
    does not hold the word "fetch", the URL has no n, and the remote is the
    first of the listing. *)
Theorem Project_https_without_n :
  forall (w : world) (x scheme host org repo sfx rest : bytes),
    Getenv w (B "PROJECT_NAME") = [] ->
    git w git_remote
    = Some (fetch_line (x ++ B "n") (https_url scheme host org repo sfx)
            ++ newline ++ rest) ->
    no_byte "n" x = true -> Contains x (B "fetch") = false ->
    token (https_url scheme host org repo sfx) ->
    no_byte "n" (https_url scheme host org repo sfx) = true ->
    no_byte "/" org = true -> repo_name repo sfx ->
    Project w = org ++ B "-" ++ repo.
Proof.
  intros w x scheme host org repo sfx rest He Hg Hx Hf Hu Hn Ho Hr.
  apply (Project_https_last_two w x scheme host org repo sfx rest);
    assumption.
Qed.

(** The theorem at work on the listing of a clone of this repository. *)
Lemma Project_https_without_n_witness :
  Project sample = B "Deppkepa-semver-git".
Proof.
  apply (Project_https_without_n sample (B "origi") (B "https")
           (B "github.com") (B "Deppkepa") (B "semver-git") (B ".git")
           (B "origin" ++ tab
            ++ B "https://github.com/Deppkepa/semver-git.git (push)"
            ++ newline));
    try reflexivity.
  - split; [discriminate | vm_compute; reflexivity].
  - split; [discriminate | split; [reflexivity | left; reflexivity]].
Defined.

Lemma ReplaceAll_cut (c d : ascii) (a b : bytes) :
  no_byte c a = true ->
  ReplaceAll (a ++ c :: b) [c] [d] = a ++ d :: ReplaceAll b [c] [d].
Proof.
  intros Ha. unfold ReplaceAll, Replace. cbn [Z.ltb Z.compare].
  induction a as [|x a IH].
  - cbn [app replace_go HasPrefix]. rewrite Ascii.eqb_refl.
    cbn [andb option_map length Nat.sub app]. reflexivity.
  - cbn [no_byte forallb] in Ha. apply andb_true_iff in Ha as [Hx Ha].
    apply negb_true_iff in Hx.
    change ((x :: a) ++ c :: b) with (x :: a ++ c :: b).
    cbn [replace_go HasPrefix]. rewrite Hx. cbn [andb]. rewrite (IH Ha).
    reflexivity.
Qed.

(** On the SSH shorthand [Project] turns into "-" every "/" of what
    follows the first colon, the suffix ".git" taken off. *)
Lemma Project_ssh_path (w : world) (x userhost path rest : bytes) :
  Getenv w (B "PROJECT_NAME") = [] ->
  git w git_remote
  = Some (fetch_line (x ++ B "n") (userhost ++ B ":" ++ path)
          ++ newline ++ rest) ->
  no_byte "n" x = true -> Contains x (B "fetch") = false ->
  token (userhost ++ B ":" ++ path) ->
  no_byte "n" (userhost ++ B ":" ++ path) = true ->
  Contains (userhost ++ B ":" ++ path) (B "://") = false ->
  no_byte ":" userhost = true ->
  Project w = ReplaceAll (TrimSuffix path (B ".git")) (B "/") (B "-").
Proof.
  intros He Hg Hx Hf Hu Hn Hc' Hcol.
  unfold Project. rewrite He, Hg.
  replace (negb (bytes_eqb [] [])) with false by reflexivity.
  destruct (Project_piece x _ rest Hx Hu Hn)
    as (piece & junk & pieces & -> & Hc & Hfields).
  cbn [Project_loop]. rewrite Hf, Hc, Hfields. cbn [length Nat.ltb Nat.leb nth].
  rewrite Hc'. change (B ":") with [":"%char].
  change (userhost ++ [":"%char] ++ path) with (userhost ++ ":"%char :: path).
  rewrite (SplitN_first ":" userhost path Hcol). reflexivity.
Qed.

(** X19.  Under the same conditions on the listing, [Project] gives
    org-repo for the SSH shorthand user@host:org/repo, followed or not by
    ".git": what follows the first colon, its "/" turned into "-". *)
Theorem Project_ssh_without_n :
  forall (w : world) (x user host org repo sfx rest : bytes),
    Getenv w (B "PROJECT_NAME") = [] ->
    git w git_remote
    = Some (fetch_line (x ++ B "n") (ssh_url user host org repo sfx)
            ++ newline ++ rest) ->
    no_byte "n" x = true -> Contains x (B "fetch") = false ->
    token (ssh_url user host org repo sfx) ->
    no_byte "n" (ssh_url user host org repo sfx) = true ->
    Contains (ssh_url user host org repo sfx) (B "://") = false ->
    no_byte ":" (user ++ B "@" ++ host) = true ->
    no_byte "/" org = true -> repo_name repo sfx ->
    Project w = org ++ B "-" ++ repo.
Proof.
  intros w x user host org repo sfx rest He Hg Hx Hf Hu Hn Hc' Hcol Ho
    (Hne & Hr & Hs).
  assert (E : ssh_url user host org repo sfx
              = (user ++ B "@" ++ host) ++ B ":" ++ org ++ B "/" ++ repo ++ sfx)
    by (unfold ssh_url; rewrite <- !app_assoc; reflexivity).
  rewrite E in *.
  rewrite (Project_ssh_path w x (user ++ B "@" ++ host)
             (org ++ B "/" ++ repo ++ sfx) rest) by assumption.
  change (B "/") with ["/"%char]. change (B "-") with ["-"%char].
  replace (org ++ ["/"%char] ++ repo ++ sfx)
    with ((org ++ "/"%char :: repo) ++ sfx)
    by (rewrite <- app_assoc; reflexivity).
  destruct Hs as [-> | [-> Hs]].
  - rewrite TrimSuffix_app. apply ReplaceAll_one; assumption.
  - rewrite app_nil_r, TrimSuffix_keep by assumption.
    apply ReplaceAll_one; assumption.
Qed.

(** The theorem at work: a clone over SSH. *)
Lemma Project_ssh_without_n_witness :
  Project (printing (listing (B "origin")
                       (B "git@github.com:Deppkepa/semver-git.git")))
  = B "Deppkepa-semver-git".
Proof.
  apply (Project_ssh_without_n _ (B "origi") (B "git") (B "github.com")
           (B "Deppkepa") (B "semver-git") (B ".git")
           (B "origin" ++ tab
            ++ B "git@github.com:Deppkepa/semver-git.git (push)"
            ++ newline));
    try reflexivity.
  - split; [discriminate | vm_compute; reflexivity].
  - split; [discriminate | split; [reflexivity | left; reflexivity]].
Defined.

(** X20.  For one and the same repository [Project] gives two names,
    according to the form of the URL, when the path has more than two
    elements: for user@host:group/org/repo it gives group-org-repo, the
    whole path, and for scheme://host/group/org/repo it gives org-repo,
    the last two elements (under the conditions of X18 on each listing). *)
Theorem Project_depends_on_transport :
  forall (w1 w2 : world) (x userhost scheme host group org repo sfx r1 r2 : bytes),
    Getenv w1 (B "PROJECT_NAME") = [] ->
    Getenv w2 (B "PROJECT_NAME") = [] ->
    git w1 git_remote
    = Some (fetch_line (x ++ B "n")
              (userhost ++ B ":" ++ group ++ B "/" ++ org ++ B "/" ++ repo
               ++ sfx)
            ++ newline ++ r1) ->
    git w2 git_remote
    = Some (fetch_line (x ++ B "n")
              (https_url scheme (host ++ B "/" ++ group) org repo sfx)
            ++ newline ++ r2) ->
    no_byte "n" x = true -> Contains x (B "fetch") = false ->
    token (userhost ++ B ":" ++ group ++ B "/" ++ org ++ B "/" ++ repo ++ sfx) ->
    no_byte "n"
      (userhost ++ B ":" ++ group ++ B "/" ++ org ++ B "/" ++ repo ++ sfx)
    = true ->
    Contains
      (userhost ++ B ":" ++ group ++ B "/" ++ org ++ B "/" ++ repo ++ sfx)
      (B "://") = false ->
    no_byte ":" userhost = true ->
    token (https_url scheme (host ++ B "/" ++ group) org repo sfx) ->
    no_byte "n" (https_url scheme (host ++ B "/" ++ group) org repo sfx)
    = true ->
    no_byte "/" group = true -> no_byte "/" org = true ->
    repo_name repo sfx ->
    Project w1 = group ++ B "-" ++ org ++ B "-" ++ repo
    /\ Project w2 = org ++ B "-" ++ repo.
Proof.
  intros w1 w2 x userhost scheme host group org repo sfx r1 r2 He1 He2 Hg1 Hg2
    Hx Hf Hu1 Hn1 Hc1 Hcol Hu2 Hn2 Hgr Ho Hr.
  split.
  - rewrite (Project_ssh_path w1 x userhost
               (group ++ B "/" ++ org ++ B "/" ++ repo ++ sfx) r1)
      by assumption.
    destruct Hr as (Hne & Hr & Hs).
    change (B "/") with ["/"%char]. change (B "-") with ["-"%char].
    replace (group ++ ["/"%char] ++ org ++ ["/"%char] ++ repo ++ sfx)
      with ((group ++ "/"%char :: org ++ "/"%char :: repo) ++ sfx)
      by (repeat first [rewrite <- app_assoc | progress cbn [app]];
          reflexivity).
    assert (T : TrimSuffix ((group ++ "/"%char :: org ++ "/"%char :: repo)
                            ++ sfx) (B ".git")
                = group ++ "/"%char :: org ++ "/"%char :: repo).
    { destruct Hs as [-> | [-> Hs]]; [apply TrimSuffix_app|].
      rewrite app_nil_r.
      replace (group ++ "/"%char :: org ++ "/"%char :: repo)
        with ((group ++ "/"%char :: org) ++ "/"%char :: repo)
        by (rewrite <- app_assoc; reflexivity).
      apply TrimSuffix_keep. exact Hs. }
    rewrite T, ReplaceAll_cut by assumption.
    rewrite ReplaceAll_one by assumption. reflexivity.
  - apply (Project_https_last_two w2 x scheme (host ++ B "/" ++ group) org
             repo sfx r2); assumption.
Qed.

(** The theorem at work: a project in a group of groups. *)
Lemma Project_depends_on_transport_witness :
  Project (printing (listing (B "origin")
                       (B "git@host.org:group/team/tool.git")))
  = B "group-team-tool"
  /\ Project (printing (listing (B "origin")
                          (B "https://host.org/group/team/tool.git")))
     = B "team-tool".
Proof.
  apply (Project_depends_on_transport _ _ (B "origi") (B "git@host.org")
           (B "https") (B "host.org") (B "group") (B "team") (B "tool")
           (B ".git")
           (B "origin" ++ tab ++ B "git@host.org:group/team/tool.git (push)"
            ++ newline)
           (B "origin" ++ tab
            ++ B "https://host.org/group/team/tool.git (push)" ++ newline));
    try reflexivity;
    try (split; [discriminate | vm_compute; reflexivity]).
  split; [discriminate | split; [reflexivity | left; reflexivity]].
Defined.

End ProjectName.

(** ** The two ends of a version string *)

Section Ends.

Import VersionCheck.

Lemma app_tail_cases (s1 s2 s : bytes) (c : ascii) :
  s1 ++ s2 = s ++ [c] ->
  (s2 = [] /\ s1 = s ++ [c]) \/ exists s2', s2 = s2' ++ [c].
Proof.
  intros E. destruct s2 as [|x s2] using rev_ind.
  - left. rewrite app_nil_r in E. auto.
  - right. rewrite app_assoc in E. apply app_inj_tail in E as [_ ->]. eauto.
Qed.

Lemma lasts_lang (r : re) (w : bytes) :
  lang r w -> forall s c, w = s ++ [c] -> lasts r c = true.
Proof.
  intros H.
  induction H as [| a | lo hi a Ha | r1 r2 s1 s2 H1 IH1 H2 IH2
                 | r1 r2 w _ IH | r1 r2 w _ IH | r | r s1 s2 _ IH1 _ IH2];
    intros s c E; cbn [lasts].
  - destruct s; discriminate E.
  - destruct s as [|? [|]]; try discriminate E. injection E as ->.
    apply Ascii.eqb_refl.
  - destruct s as [|? [|]]; try discriminate E. injection E as ->. exact Ha.
  - apply app_tail_cases in E as [[-> ->] | (s2' & ->)].
    + apply nullable_lang in H2. rewrite H2, (IH1 s c eq_refl).
      apply orb_true_r.
    + rewrite (IH2 s2' c eq_refl). reflexivity.
  - rewrite (IH s c E). reflexivity.
  - rewrite (IH s c E). apply orb_true_r.
  - destruct s; discriminate E.
  - apply app_tail_cases in E as [[-> ->] | (s2' & ->)].
    + apply (IH1 s c eq_refl).
    + apply (IH2 s2' c eq_refl).
Qed.

Lemma lasts_alnum (c : category) (x : ascii) :
  lasts (pattern c) x = true -> alnum x = true.
Proof.
  destruct c; destruct x as [[] [] [] [] [] [] [] []]; vm_compute;
    intros H; (reflexivity || discriminate H).
Qed.

(** X21.  An accepted version string begins with "v" or a digit and
    ends with a digit or a letter: a string that ends with ".", "_", "-"
    or "~" is rejected. *)
Theorem accepted_ends :
  forall (s : bytes) (c : category),
    classify s = Some c ->
    (exists y t, s = y :: t /\ (y = "v"%char \/ is_digit y = true))
    /\ (exists t x, s = t ++ [x] /\ alnum x = true).
Proof.
  intros s c H. pose proof (classify_nonempty s c H) as Hne.
  apply classify_match in H. apply matches_lang in H. split.
  - apply pattern_split in H as (p & a & -> & Hp & _).
    apply triple_inv in Hp as [Hp | (q & -> & _)].
    + destruct (numbers_head p Hp) as (d & p' & -> & Hd).
      exists d, (p' ++ a). auto.
    + exists "v"%char, (q ++ a). auto.
  - destruct (exists_last Hne) as (t & x & ->). exists t, x.
    split; [reflexivity|].
    apply (lasts_alnum c), (lasts_lang _ _ H t x eq_refl).
Qed.

(** The theorem at work. *)
Lemma accepted_ends_witness :
  (exists y t, B "v1.2.3.post_b.7" = y :: t
               /\ (y = "v"%char \/ is_digit y = true))
  /\ (exists t x, B "v1.2.3.post_b.7" = t ++ [x] /\ alnum x = true).
Proof.
  apply (accepted_ends (B "v1.2.3.post_b.7") PostRelease).
  vm_compute. reflexivity.
Defined.

End Ends.

(** * The two programs on their command line *)

Section FlagParsing.

Context {S : Type}.

Lemma Parse_positional (formal : list (bytes * flag_def S)) (vars : S)
  (c : bytes) (rest : list bytes) :
  HasPrefix c (B "-") = false ->
  Parse formal vars (c :: rest) = Parsed vars (c :: rest).
Proof.
  intros H. destruct c as [|c0 [|c1 s2]]; try reflexivity.
  cbn [Parse]. cbn [HasPrefix B list_ascii_of_string] in H.
  rewrite andb_true_r in H. rewrite H. reflexivity.
Qed.

(** Where the program defines the flags "-h" and "-help" itself,
    [flag.Parse] never answers for them. *)
Lemma Parse_no_help (formal : list (bytes * flag_def S)) :
  lookup (B "help") formal <> None -> lookup (B "h") formal <> None ->
  forall (n : nat) (args : list bytes) (vars : S),
    (length args <= n)%nat -> Parse formal vars args <> HelpAsked.
Proof.
  intros Hhelp Hh. induction n as [|n IH]; intros args vars Hl;
    destruct args as [|s rest]; cbn [Parse]; try discriminate;
    cbn [length] in Hl; [lia|].
  destruct s as [|c0 [|c1 s2]]; try discriminate.
  destruct (negb (Ascii.eqb c0 "-")); [discriminate|].
  destruct (Ascii.eqb c1 "-" && bytes_eqb s2 []); [discriminate|].
  destruct (if Ascii.eqb c1 "-" then s2 else c1 :: s2) as [|n0 name];
    [discriminate|].
  destruct (Ascii.eqb n0 "-" || Ascii.eqb n0 "="); [discriminate|].
  destruct (split_value (n0 :: name)) as [nm value].
  destruct (lookup nm formal) as [[set | set]|] eqn:E.
  - destruct value as [v|]; [destruct (ParseBool v); [| discriminate]|];
      apply IH; lia.
  - destruct value as [v|]; [apply IH; lia|].
    destruct rest as [|v rest']; [discriminate|].
    apply IH. cbn [length] in Hl. lia.
  - destruct (bytes_eqb nm (B "help")) eqn:E1.
    { apply bytes_eqb_eq in E1. subst nm. congruence. }
    destruct (bytes_eqb nm (B "h")) eqn:E2.
    { apply bytes_eqb_eq in E2. subst nm. congruence. }
    discriminate.
Qed.

End FlagParsing.

(** ** The version-check tool *)

Section VersionCheckLine.

Import VersionCheck.

Lemma accepted_not_flag (v : bytes) :
  classify v <> None -> HasPrefix v (B "-") = false.
Proof.
  intros H. destruct (classify v) as [c|] eqn:E; [| congruence].
  apply classify_match, matches_lang, pattern_split in E
    as (p & a & -> & Hp & _).
  apply triple_inv in Hp as [Hp | (q & -> & _)]; [| reflexivity].
  destruct (numbers_head p Hp) as (d & p' & -> & Hd).
  cbn [app HasPrefix B list_ascii_of_string]. rewrite andb_true_r.
  destruct (Ascii.eqb_spec d "-") as [-> |]; [discriminate Hd | reflexivity].
Qed.

Lemma parse_line_no_help (argv : list bytes) : parse_line argv <> HelpAsked.
Proof.
  apply (Parse_no_help flagset ltac:(discriminate) ltac:(discriminate)
           (length argv)). lia.
Qed.

Lemma run_single (v : bytes) :
  HasPrefix v (B "-") = false -> run [v] = exec (main defaults [v]).
Proof.
  intros H. unfold run, parse_line. rewrite Parse_positional by exact H.
  reflexivity.
Qed.

(** C9, as the program has it.  [flag.Parse] either rejects the command
    line, and the tool exits with status 2 and prints nothing on standard
    output, or reads the flags and leaves the positional arguments.  In
    the second case, with none of [-h], [-V] and [-r] set, the tool exits
    with status 1 and prints nothing when there is no positional argument
    and when the first one, the version string, matches none of the four
    patterns; and under any flags it exits with status 0 when the first
    positional argument matches one.  A version string that does not
    start with "-", given as the only argument, is the first positional
    argument: the tool then exits with status 1 without output when the
    string matches no pattern and with status 0 when it matches one. *)
Theorem version_check_exit_status :
  forall argv : list bytes,
    parse_line argv <> HelpAsked
    /\ (parse_line argv = Failed -> run argv = ([], 2%Z))
    /\ (forall f args,
          parse_line argv = Parsed f args -> flags_off f ->
          args = [] \/ classify (nth 0 args []) = None ->
          run argv = ([], 1%Z))
    /\ (forall f v rest,
          parse_line argv = Parsed f (v :: rest) -> classify v <> None ->
          snd (run argv) = 0%Z)
    /\ (forall v,
          argv = [v] -> HasPrefix v (B "-") = false -> classify v = None ->
          run argv = ([], 1%Z))
    /\ (forall v, argv = [v] -> classify v <> None -> snd (run argv) = 0%Z).
Proof.
  intros argv. destruct main_exit_status as (M1 & M2 & M3).
  split; [apply parse_line_no_help|].
  split; [intros E; unfold run; rewrite E; reflexivity|].
  split; [| split; [| split]].
  - intros f args E Hf H. unfold run. rewrite E.
    destruct args as [|v rest]; [apply M1; exact Hf|].
    destruct H as [H | H]; [discriminate H|]. apply M2; assumption.
  - intros f v rest E Hv. unfold run. rewrite E. apply (M3 f v rest Hv).
  - intros v -> Hp Hv. rewrite (run_single v Hp).
    apply M2; [repeat split | exact Hv].
  - intros v -> Hv. rewrite (run_single v (accepted_not_flag v Hv)).
    apply (M3 defaults v [] Hv).
Qed.

(** The theorem at work: a flag that is not defined, no argument after a
    flag, a string without patch number, a release after two flags. *)
Lemma version_check_exit_status_witness :
  run [B "-x"; B "1.2.3"] = ([], 2%Z)
  /\ run [B "-t"] = ([], 1%Z)
  /\ run [B "1.2"] = ([], 1%Z)
  /\ snd (run [B "-t"; B "--build-type"; B "1.2.3"]) = 0%Z.
Proof.
  split; [| split; [| split]].
  - apply (version_check_exit_status [B "-x"; B "1.2.3"]). reflexivity.
  - destruct (version_check_exit_status [B "-t"]) as (_ & _ & H & _).
    apply (H (set_type true defaults) []);
      [reflexivity | repeat split | left; reflexivity].
  - destruct (version_check_exit_status [B "1.2"]) as (_ & _ & _ & _ & H & _).
    apply (H (B "1.2")); [reflexivity | reflexivity | vm_compute; reflexivity].
  - destruct (version_check_exit_status [B "-t"; B "--build-type"; B "1.2.3"])
      as (_ & _ & _ & H & _).
    apply (H (set_buildType true (set_type true defaults)) (B "1.2.3") []);
      [reflexivity | vm_compute; discriminate].
Defined.

(** C9, as it is worded, fails in two ways.  Under [-h] the help is
    printed and the status is 0, with a string that matches nothing as
    with no argument.  And a string that matches nothing and starts with
    "-", such as -1.2.3, is read as a flag that is not defined: the status
    is 2, not 1. *)
Lemma version_check_counterexample :
  classify (B "1.2") = None
  /\ run [B "-h"; B "1.2"] <> ([], 1%Z)
  /\ snd (run [B "-h"; B "1.2"]) = 0%Z
  /\ run [B "-h"] <> ([], 1%Z)
  /\ classify (B "-1.2.3") = None
  /\ run [B "-1.2.3"] = ([], 2%Z).
Proof. repeat split; vm_compute; try reflexivity; discriminate. Qed.

End VersionCheckLine.

(** ** The describe tool *)

Section DescribeLine.

Import Describe.

Lemma describe_line_no_help (argv : list bytes) :
  parse_line argv <> HelpAsked.
Proof.
  apply (Parse_no_help flagset ltac:(discriminate) ltac:(discriminate)
           (length argv)). lia.
Qed.

Lemma parse_strategy_command (s c : bytes) (rest : list bytes) :
  HasPrefix c (B "-") = false ->
  parse_line (B "-s" :: s :: c :: rest)
  = Parsed (set_strategy s defaults) (c :: rest).
Proof.
  intros H. unfold parse_line.
  change (Parse flagset defaults (B "-s" :: s :: c :: rest))
    with (Parse flagset (set_strategy s defaults) (c :: rest)).
  apply Parse_positional. exact H.
Qed.

(** C8, as the program has it.  [flag.Parse] either rejects the command
    line, and the tool exits with status 2 and prints nothing on standard
    output, or reads the flags, up to the first positional argument, and
    leaves the positional arguments.  In the second case, with neither
    [-h] nor [-V] set, when the strategy read is none of tag, abbrev, rank
    or the first positional argument is none of project, module, version,
    release, full, the tool exits with a status that is not 0 (it is 1)
    and prints no result: nothing when there is a positional argument, and
    the line that says that no command was provided when there is none.
    So it is for "-s" with an unrecognized value followed by any command,
    and for an unrecognized command without flags. *)
Theorem describe_rejects_unknown :
  forall (argv : list bytes) (w : world),
    parse_line argv <> HelpAsked
    /\ (parse_line argv = Failed ->
        run argv w = ([], 2%Z) /\ snd (run argv w) <> 0%Z)
    /\ (forall f args,
          parse_line argv = Parsed f args -> flags_off f ->
          known_strategy (strategy f) = false
          \/ known_command (nth 0 args []) = false ->
          run argv w
          = (match args with
             | [] => no_command ++ newline
             | _ :: _ => []
             end, 1%Z)
          /\ snd (run argv w) <> 0%Z)
    /\ (forall s c rest,
          argv = B "-s" :: s :: c :: rest ->
          known_strategy s = false -> HasPrefix c (B "-") = false ->
          run argv w = ([], 1%Z))
    /\ (forall c rest,
          argv = c :: rest ->
          HasPrefix c (B "-") = false -> known_command c = false ->
          run argv w = ([], 1%Z)).
Proof.
  intros argv w. split; [apply describe_line_no_help|].
  split; [intros E; unfold run; rewrite E; split; [reflexivity | discriminate]|].
  split; [| split].
  - intros f args E Hf H. unfold run. rewrite E.
    rewrite (main_rejects_unknown f args w Hf H).
    split; [reflexivity | discriminate].
  - intros s c rest -> Hs Hc. unfold run.
    rewrite (parse_strategy_command s c rest Hc).
    apply (main_rejects_unknown (set_strategy s defaults) (c :: rest) w);
      [split; reflexivity | left; exact Hs].
  - intros c rest -> Hc Hk. unfold run, parse_line.
    rewrite Parse_positional by exact Hc.
    apply (main_rejects_unknown defaults (c :: rest) w);
      [split; reflexivity | right; exact Hk].
Qed.

(** The theorem at work: a flag that is not defined, an unknown
    strategy before a command, an unknown command, an unknown strategy
    and no command. *)
Lemma describe_rejects_unknown_witness :
  run [B "-s"; B "semver"; B "-x"; B "project"] sample = ([], 2%Z)
  /\ run [B "-s"; B "semver"; B "project"] sample = ([], 1%Z)
  /\ run [B "name"] sample = ([], 1%Z)
  /\ run [B "--strategy=semver"] sample = (no_command ++ newline, 1%Z).
Proof.
  split; [| split; [| split]].
  - apply (describe_rejects_unknown [B "-s"; B "semver"; B "-x"; B "project"]
             sample). reflexivity.
  - destruct (describe_rejects_unknown [B "-s"; B "semver"; B "project"]
                sample) as (_ & _ & _ & H & _).
    apply (H (B "semver") (B "project") []); reflexivity.
  - destruct (describe_rejects_unknown [B "name"] sample)
      as (_ & _ & _ & _ & H).
    apply (H (B "name") []); reflexivity.
  - destruct (describe_rejects_unknown [B "--strategy=semver"] sample)
      as (_ & _ & H & _).
    apply (H (set_strategy (B "semver") defaults) []);
      [reflexivity | split; reflexivity | left; reflexivity].
Defined.

(** C8, as it is worded, fails under [-h] and under [-V]: with an unknown
    strategy and an unknown command the help, or the version number, is
    printed and the status is 0. *)
Lemma describe_help_counterexample :
  parse_line [B "-h"; B "-s"; B "semver"; B "name"]
  = Parsed (set_strategy (B "semver") (set_help true defaults)) [B "name"]
  /\ known_strategy (B "semver") = false
  /\ known_command (B "name") = false
  /\ snd (run [B "-h"; B "-s"; B "semver"; B "name"] sample) = 0%Z
  /\ run [B "-V"; B "-s"; B "semver"; B "name"] sample
     = (VERSION ++ newline, 0%Z).
Proof. repeat split; vm_compute; reflexivity. Qed.

End DescribeLine.
